(** * Thoughtful AI support agent: the answer-resolution core of [app.py]

    A shallow embedding of [find_best_match], [get_openai_response] and
    [get_agent_response], together with a model of the two external
    libraries they call (rapidfuzz and the OpenAI client), and the
    properties of the resolution pipeline proved over that embedding.

    Conventions.
    - A Python [str] is a list of Unicode code points ([str := list N]);
      [py "..."] turns a literal into such a list.
    - A similarity score is a Python float in the source.  Every score
      computed here has the shape [100 - 100 * d / l] for two natural
      numbers, so scores are modelled as exact rationals ([Q]) and compared
      with [Qeq], [Qle] and [Qlt].
    - The OpenAI client is the only effectful collaborator.  Code that may
      call it (or raise) lives in the small free monad [eff]; everything
      else is a pure function. *)

From Stdlib Require Import Ascii String DecimalString.
From Stdlib Require Import List Bool Arith NArith ZArith QArith Qround Qminmax Lia Lqa.
Import ListNotations.

Local Open Scope string_scope.
Local Open Scope list_scope.

(* ===================================================================== *)
(** ** Python strings *)
(* ===================================================================== *)

Definition char := N.
Definition str := list char.

(** A literal: one code point per character of the (ASCII) literal. *)
Definition py (s : string) : str := map N_of_ascii (list_ascii_of_string s).

Fixpoint str_eqb (a b : str) : bool :=
  match a, b with
  | [], [] => true
  | x :: a', y :: b' => N.eqb x y && str_eqb a' b'
  | _, _ => false
  end.

(** [str.isspace] on one code point: the code points CPython treats as
    whitespace in [str.strip()] and [str.split()]. *)
Definition isspace (c : char) : bool :=
  ((9 <=? c) && (c <=? 13) || (28 <=? c) && (c <=? 32)
   || (c =? 133) || (c =? 160) || (c =? 5760)
   || (8192 <=? c) && (c <=? 8202)
   || (c =? 8232) || (c =? 8233) || (c =? 8239) || (c =? 8287)
   || (c =? 12288))%N.

Fixpoint lstrip (s : str) : str :=
  match s with
  | [] => []
  | c :: s' => if isspace c then lstrip s' else s
  end.

Definition rstrip (s : str) : str := rev (lstrip (rev s)).

(** [s.strip()] *)
Definition strip (s : str) : str := rstrip (lstrip s).

(** Truthiness of a string, list or set: the empty one is falsy. *)
Definition truthy {A : Type} (s : list A) : bool :=
  match s with [] => false | _ :: _ => true end.

(** The maximal runs of code points that are not [space].  [cur] is the
    run being read, most recent code point first. *)
Fixpoint split_on (space : char -> bool) (cur : str) (s : str) : list str :=
  match s with
  | [] => match cur with [] => [] | _ => [rev cur] end
  | c :: s' =>
      if space c
      then match cur with
           | [] => split_on space [] s'
           | _ => rev cur :: split_on space [] s'
           end
      else split_on space (c :: cur) s'
  end.

(** [s.split()] *)
Definition split (s : str) : list str := split_on isspace [] s.

(** [sep.join(parts)] *)
Fixpoint join (sep : str) (parts : list str) : str :=
  match parts with
  | [] => []
  | [p] => p
  | p :: rest => p ++ sep ++ join sep rest
  end.

(** [a <= b] on strings: lexicographic order on code points. *)
Fixpoint str_leb (a b : str) : bool :=
  match a, b with
  | [], _ => true
  | _ :: _, [] => false
  | x :: a', y :: b' =>
      if (x <? y)%N then true
      else if (y <? x)%N then false
      else str_leb a' b'
  end.

Fixpoint insert_sorted (x : str) (l : list str) : list str :=
  match l with
  | [] => [x]
  | y :: l' => if str_leb x y then x :: l else y :: insert_sorted x l'
  end.

(** [sorted(tokens)] *)
Definition sorted (l : list str) : list str := fold_right insert_sorted [] l.

Definition mem (x : str) (l : list str) : bool := existsb (str_eqb x) l.

(** [set(tokens)], kept as a duplicate-free list.  Python leaves the
    iteration order of a set unspecified; the code below only sorts such a
    set, measures it or tests it for emptiness. *)
Fixpoint to_set (l : list str) : list str :=
  match l with
  | [] => []
  | x :: l' => if mem x l' then to_set l' else x :: to_set l'
  end.

Definition intersection (a b : list str) : list str :=
  filter (fun x => mem x b) a.

Definition difference (a b : list str) : list str :=
  filter (fun x => negb (mem x b)) a.

(* ===================================================================== *)
(** ** The rapidfuzz library, as far as [find_best_match] uses it

    [rapidfuzz] is a third-party package; what follows models the two
    entry points [app.py] calls, [fuzz.token_set_ratio] and
    [process.extractOne], after the package's implementation (strings are
    scored as given, with no [processor], as in rapidfuzz 3).  The general
    results below use two facts about the scorer only: its scores lie
    between 0 and 100, and a query [str.strip()] finds blank scores below
    the threshold against every corpus question. *)
(* ===================================================================== *)

Module fuzz.

(** One row of the insertion/deletion edit-distance table.  [diag] is the
    entry above-left of the one being filled, [left] the entry to its
    left, and [above] the rest of the previous row. *)
Fixpoint indel_row (x : char) (b : str) (diag left : nat) (above : list nat)
  : list nat :=
  match b, above with
  | y :: b', up :: above' =>
      let v := if (x =? y)%N then diag else S (Nat.min up left) in
      v :: indel_row x b' up v above'
  | _, _ => []
  end.

Fixpoint indel_rows (a b : str) (row : list nat) : list nat :=
  match a with
  | [] => row
  | x :: a' =>
      match row with
      | d0 :: rest => indel_rows a' b (S d0 :: indel_row x b d0 (S d0) rest)
      | [] => []
      end
  end.

(** [Indel.distance(a, b)]: the least number of single-character
    insertions and deletions turning [a] into [b]. *)
Definition indel_distance (a b : str) : nat :=
  last (indel_rows a b (seq 0 (S (length b)))) 0%nat.

(** rapidfuzz reads a [str] at the width Python stores it in: one byte
    per character when every code point is below 256, wider otherwise. *)
Definition one_byte (s : str) : bool := forallb (fun c => (c <? 256)%N) s.

(** The characters at which the scorer separates words.  In a string of
    one-byte characters these are the ASCII ones only: U+0085 and U+00A0,
    whitespace for [str.split()], are not among them.  In a wider string
    they are those of [str.isspace]. *)
Definition is_space (narrow : bool) (c : char) : bool :=
  if narrow
  then ((9 <=? c) && (c <=? 13) || (28 <=? c) && (c <=? 32))%N
  else isspace c.

(** The words of a string, as the scorer splits it. *)
Definition split (s : str) : list str :=
  split_on (is_space (one_byte s)) [] s.

Definition Qnat (n : nat) : Q := inject_Z (Z.of_nat n).

(** [_norm_distance(dist, lensum, score_cutoff)] *)
Definition norm_distance (dist lensum : nat) (score_cutoff : Q) : Q :=
  let score :=
    match lensum with
    | O => 100
    | _ => 100 - (100 * Qnat dist) / Qnat lensum
    end in
  if Qle_bool score_cutoff score then score else 0.

(** [(sect_len != 0)] used as a number *)
Definition nonzero (n : nat) : nat := match n with O => 0%nat | _ => 1%nat end.

(** [fuzz.token_set_ratio(s1, s2)], called without [score_cutoff] (which
    the function then takes to be 0). *)
Definition token_set_ratio (s1 s2 : str) : Q :=
  if negb (truthy s1) || negb (truthy s2) then 0
  else
    let tokens_a := to_set (split s1) in
    let tokens_b := to_set (split s2) in
    if negb (truthy tokens_a) || negb (truthy tokens_b) then 0
    else
      let intersect := intersection tokens_a tokens_b in
      let diff_ab := difference tokens_a tokens_b in
      let diff_ba := difference tokens_b tokens_a in
      (* one sentence is part of the other one *)
      if truthy intersect && (negb (truthy diff_ab) || negb (truthy diff_ba))
      then 100
      else
        let diff_ab_joined := join (py " ") (sorted diff_ab) in
        let diff_ba_joined := join (py " ") (sorted diff_ba) in
        let ab_len := length diff_ab_joined in
        let ba_len := length diff_ba_joined in
        let sect_len := length (join (py " ") intersect) in
        let sect_ab_len := (sect_len + nonzero sect_len + ab_len)%nat in
        let sect_ba_len := (sect_len + nonzero sect_len + ba_len)%nat in
        let dist := indel_distance diff_ab_joined diff_ba_joined in
        let result := norm_distance dist (sect_ab_len + sect_ba_len) 0 in
        if (sect_len =? 0)%nat then result
        else
          let sect_ab_dist := (nonzero sect_len + ab_len)%nat in
          let sect_ab_ratio :=
            norm_distance sect_ab_dist (sect_len + sect_ab_len) 0 in
          let sect_ba_dist := (nonzero sect_len + ba_len)%nat in
          let sect_ba_ratio :=
            norm_distance sect_ba_dist (sect_len + sect_ba_len) 0 in
          Qmax result (Qmax sect_ab_ratio sect_ba_ratio).

End fuzz.

Module process.

Section ExtractOne.

(** The [scorer] argument, as called with no [score_cutoff]. *)
Variable scorer : str -> str -> Q.

Definition Qlt_bool (a b : Q) : bool := negb (Qle_bool b a).

(** [scorer(query, choice, score_cutoff=score_cutoff)]: rapidfuzz scorers
    return 0 in place of a score below the cutoff they are given. *)
Definition call_scorer (query choice : str) (score_cutoff : Q) : Q :=
  let score := scorer query choice in
  if Qle_bool score_cutoff score then score else 0.

(** The loop of [extractOne] over [enumerate(choices)], for a scorer whose
    best score is 100 and whose worst is 0.  [key] is the index of the
    head of [choices]; [result] is [(choice, score, key)] or [None]. *)
Fixpoint extractOne_loop (query : str) (choices : list str) (key : nat)
    (score_cutoff : Q) (result : option (str * Q * nat))
  : option (str * Q * nat) :=
  match choices with
  | [] => result
  | choice :: rest =>
      let score := call_scorer query choice score_cutoff in
      let better :=
        Qle_bool score_cutoff score
        && match result with
           | None => true
           | Some (_, best, _) => Qlt_bool best score
           end in
      let score_cutoff' := if better then score else score_cutoff in
      let result' := if better then Some (choice, score, key) else result in
      if Qeq_bool score 100 then result'   (* optimal score: break *)
      else extractOne_loop query rest (S key) score_cutoff' result'
  end.

(** [process.extractOne(query, choices, scorer=scorer)].  No
    [score_cutoff] is passed: the loop starts from the worst score, 0. *)
Definition extractOne (query : str) (choices : list str)
  : option (str * Q * nat) :=
  extractOne_loop query choices 0 0 None.

End ExtractOne.

End process.

(* ===================================================================== *)
(** ** [app.py]: the knowledge base and the matcher *)
(* ===================================================================== *)

(** One dict of [PREDEFINED_QA]. *)
Module QA.
Record entry := { question : str; answer : str }.
End QA.

Definition qa_EVA : QA.entry :=
  {| QA.question := py "What does the eligibility verification agent (EVA) do?";
     QA.answer := py "EVA automates the process of verifying a patient's eligibility and benefits information in real-time, eliminating manual data entry errors and reducing claim rejections." |}.

Definition qa_CAM : QA.entry :=
  {| QA.question := py "What does the claims processing agent (CAM) do?";
     QA.answer := py "CAM streamlines the submission and management of claims, improving accuracy, reducing manual intervention, and accelerating reimbursements." |}.

Definition qa_PHIL : QA.entry :=
  {| QA.question := py "How does the payment posting agent (PHIL) work?";
     QA.answer := py "PHIL automates the posting of payments to patient accounts, ensuring fast, accurate reconciliation of payments and reducing administrative burden." |}.

Definition qa_agents : QA.entry :=
  {| QA.question := py "Tell me about Thoughtful AI's Agents.";
     QA.answer := py "Thoughtful AI provides a suite of AI-powered automation agents designed to streamline healthcare processes. These include Eligibility Verification (EVA), Claims Processing (CAM), and Payment Posting (PHIL), among others." |}.

Definition qa_benefits : QA.entry :=
  {| QA.question := py "What are the benefits of using Thoughtful AI's agents?";
     QA.answer := py "Using Thoughtful AI's Agents can significantly reduce administrative costs, improve operational efficiency, and reduce errors in critical processes like claims management and payment posting." |}.

Definition PREDEFINED_QA : list QA.entry :=
  [qa_EVA; qa_CAM; qa_PHIL; qa_agents; qa_benefits].

Definition FUZZY_THRESHOLD : Q := 70.

Section Matcher.

(** [find_best_match] reads two globals: the scorer it hands to
    [extractOne] and the corpus.  Its body is embedded over both, and
    instantiated below. *)
Variable scorer : str -> str -> Q.
Variable corpus : list QA.entry.

(** [for qa in corpus: if qa["question"] == matched_question: return ...] *)
Fixpoint answer_for (entries : list QA.entry) (matched_question : str)
  : option str :=
  match entries with
  | [] => None
  | qa :: rest =>
      if str_eqb (QA.question qa) matched_question then Some (QA.answer qa)
      else answer_for rest matched_question
  end.

(** Lines 61-70: what [find_best_match] returns once [extractOne] has
    returned [result]. *)
Definition accept (result : option (str * Q * nat)) : option (str * Q) :=
  match result with
  | Some (matched_question, score, _) =>
      if Qle_bool FUZZY_THRESHOLD score then
        match answer_for corpus matched_question with
        | Some a => Some (a, score)
        | None => None                    (* the loop ends: fall through *)
        end
      else None
  | None => None
  end.

(** [not user_question or not user_question.strip()] *)
Definition is_blank (user_question : str) : bool :=
  negb (truthy user_question) || negb (truthy (strip user_question)).

Definition best_match (user_question : str) : option (str * Q) :=
  if is_blank user_question then None
  else
    let questions := map QA.question corpus in
    let result := process.extractOne scorer user_question questions in
    accept result.

End Matcher.

Definition find_best_match (user_question : str) : option (str * Q) :=
  best_match fuzz.token_set_ratio PREDEFINED_QA user_question.

(* ===================================================================== *)
(** ** The OpenAI client and the effects of the fallback path *)
(* ===================================================================== *)

(** What the client can raise.  All of these derive from [Exception];
    [exc_str e] is [str(e)]. *)
Inductive exc_type :=
| APIConnectionError        (* network error *)
| AuthenticationError       (* rejected credential *)
| APITimeoutError           (* timeout *)
| APIResponseValidationError (* malformed response *)
| IndexError                (* [choices[0]] on an empty list *)
| OtherException.

Record exception := { exc_kind : exc_type; exc_str : str }.

Inductive role := system | user.

(** The arguments of [OpenAI(api_key=...).chat.completions.create(...)]. *)
Record request := {
  api_key : str;
  model : str;
  messages : list (role * str);
  max_tokens : Z;
  temperature : Q
}.

(** The response object, reduced to what the code reads:
    [response.choices[i].message.content] for each [i].  The client types
    the content of a message [Optional[str]]: it is a text or [None]. *)
Record ChatCompletion := { choices : list (option str) }.

(** How one call to the service ends. *)
Inductive reply :=
| Completed (response : ChatCompletion)
| Failed (e : exception).

(** Computations that may call the service or raise. *)
Inductive eff (A : Type) : Type :=
| Ret (a : A)
| Raise (e : exception)
| Call (req : request) (k : reply -> eff A).

Arguments Ret {A} a.
Arguments Raise {A} e.
Arguments Call {A} req k.

Fixpoint bind {A B : Type} (m : eff A) (f : A -> eff B) : eff B :=
  match m with
  | Ret a => f a
  | Raise e => Raise e
  | Call req k => Call req (fun r => bind (k r) f)
  end.

Notation "x <- m ;; f" := (bind m (fun x => f))
  (at level 61, m at next level, right associativity).

(** [try: body  except Exception as e: handler(e)] *)
Fixpoint try_except {A : Type} (body : eff A) (handler : exception -> eff A)
  : eff A :=
  match body with
  | Ret a => Ret a
  | Raise e => handler e
  | Call req k => Call req (fun r => try_except (k r) handler)
  end.

(** [client.chat.completions.create(...)]: returns the response or raises. *)
Definition chat_completions_create (req : request) : eff ChatCompletion :=
  Call req (fun r =>
    match r with
    | Completed response => Ret response
    | Failed e => Raise e
    end).

(** [choices[0]] *)
Definition first_choice (response : ChatCompletion) : eff (option str) :=
  match choices response with
  | content :: _ => Ret content
  | [] => Raise {| exc_kind := IndexError;
                   exc_str := py "list index out of range" |}
  end.

Definition apology : str :=
  py "I apologize, but I'm having trouble connecting to my knowledge base. Error: ".

Definition fallback_request (user_question key : str) : request :=
  {| api_key := key;
     model := py "gpt-3.5-turbo";
     messages :=
       [ (system, py "You are a helpful customer support assistant. Be concise and friendly.");
         (user, user_question) ];
     max_tokens := 300;
     temperature := 7 # 10 |}.

(** The body of the [try] block. *)
Definition request_completion (user_question key : str) : eff (option str) :=
  response <- chat_completions_create (fallback_request user_question key) ;;
  first_choice response.

Definition get_openai_response (user_question key : str) : eff (option str) :=
  try_except (request_completion user_question key)
    (fun e => Ret (Some (apology ++ exc_str e))).

(* ===================================================================== *)
(** ** [app.py]: the resolver *)
(* ===================================================================== *)

(** Nearest integer, ties to the even one. *)
Definition round_half_even (x : Q) : Z :=
  let f := Qfloor x in
  match Qcompare (x - inject_Z f) (1 # 2) with
  | Lt => f
  | Gt => (f + 1)%Z
  | Eq => if Z.even f then f else (f + 1)%Z
  end.

Definition digits (z : Z) : str :=
  py (NilZero.string_of_uint (N.to_uint (Z.to_N z))).

(** [f"{score:.0f}"] *)
Definition format_0f (score : Q) : str :=
  if process.Qlt_bool score 0
  then py "-" ++ digits (round_half_even (- score))
  else digits (round_half_even score).

(** The dict [get_agent_response] returns. *)
Record AgentResponse := { answer : option str; source : str }.

Definition predefined_source (score : Q) : str :=
  py "predefined (match: " ++ format_0f score ++ py "%)".

Definition get_agent_response (user_question key : str) : eff AgentResponse :=
  let match_result := find_best_match user_question in
  match match_result with
  | Some (answer, score) =>
      Ret {| answer := Some answer; source := predefined_source score |}
  | None =>
      answer <- get_openai_response user_question key ;;
      Ret {| answer := answer; source := py "OpenAI" |}
  end.

(* ===================================================================== *)
(** ** [app.py]: the chat page ([main])

    Streamlit runs [main] from the top once per user action.  One run is
    embedded as a function of what the run reads (the environment variable,
    the value [st.chat_input] returns, whether [st.button] was clicked, and
    [st.session_state]) to the session state it leaves, the elements it
    draws, in order, and the way it ends. *)
(* ===================================================================== *)

(** One dict of [st.session_state.messages]. *)
Module Message.
Record t := { role : str; content : option str; source : option str }.
End Message.

(** The Streamlit calls of [main], as the elements they draw.  A [with]
    block is the element with what is drawn inside it.  [st.markdown]
    takes any object: [main] passes it texts, and the answer of a
    response, which may be [None]. *)
Module st.
#[warnings="-register-all"]
Inductive element :=
| set_page_config (page_title page_icon layout : str)
| title (body : str)
| markdown (body : option str)
| error (body : str)
| info (body : str)
| warning (body : str)
| caption (body : str)
| header (body : str)
| divider
| chat_input (placeholder : str)
| button (label : str)
| chat_message (name : str) (inside : list element)
| spinner (text : str) (inside : list element)
| sidebar (inside : list element).
End st.

(** What one run reads from outside the script. *)
Record run_input := {
  OPENAI_API_KEY : option str;   (* [os.getenv("OPENAI_API_KEY")] *)
  chat_input : option str;       (* what [st.chat_input(...)] returns *)
  clear_clicked : bool           (* what [st.button(...)] returns *)
}.

(** How a run of the script ends. *)
Inductive ending :=
| finished        (* the end of [main] is reached *)
| stopped         (* [st.stop()] *)
| returned        (* the [return] of line 176 *)
| rerun.          (* [st.rerun()] *)

Record page := {
  session_state : option (list Message.t);  (* [st.session_state.messages] *)
  drawn : list st.element;
  ended : ending
}.

Definition nl : str := [10%N].

Definition robot : str := [129302%N].                  (* U+1F916 *)
Definition warning_sign : str := [9888%N; 65039%N].    (* U+26A0 U+FE0F *)
Definition light_bulb : str := [128161%N].             (* U+1F4A1 *)
Definition wastebasket : str := [128465%N; 65039%N].   (* U+1F5D1 U+FE0F *)

Definition placeholder_key : str := py "your_openai_api_key_here".

Definition welcome_message : Message.t :=
  {| Message.role := py "assistant";
     Message.content := Some (py "Hello! I'm here to help you learn about Thoughtful AI's automation agents. You can ask me about EVA, CAM, PHIL, or any general questions you might have!");
     Message.source := None |}.

Definition cleared_message : Message.t :=
  {| Message.role := py "assistant";
     Message.content := Some (py "Chat cleared! How can I help you?");
     Message.source := None |}.

Definition page_head : list st.element :=
  [ st.set_page_config (py "Thoughtful AI Support Agent") robot (py "centered");
    st.title (robot ++ py " Thoughtful AI Support Agent");
    st.markdown (Some (py "Ask me anything about Thoughtful AI's automation agents or general questions!")) ].

Definition key_missing_notice : list st.element :=
  [ st.error (warning_sign ++ py " OpenAI API key not found! Please set OPENAI_API_KEY in your .env file.");
    st.info (py "See README.md for setup instructions.") ].

(** [f"*Source: {source}*"] *)
Definition source_caption (source : str) : st.element :=
  st.caption (py "*Source: " ++ source ++ py "*").

(** The body of the display loop, lines 166-169. *)
Definition show_message (message : Message.t) : st.element :=
  st.chat_message (Message.role message)
    (st.markdown (Message.content message)
     :: match Message.source message with      (* [message.get("source")] *)
        | Some source => if truthy source then [source_caption source] else []
        | None => []
        end).

Definition example_questions : str :=
  nl ++ py "        **About Thoughtful AI:**" ++
  nl ++ py "        - What does EVA do?" ++
  nl ++ py "        - Tell me about CAM" ++
  nl ++ py "        - How does PHIL work?" ++
  nl ++ py "        - What are the benefits?" ++
  nl ++ py "        " ++
  nl ++ py "        **General Questions:**" ++
  nl ++ py "        - What is machine learning?" ++
  nl ++ py "        - How can AI help healthcare?" ++
  nl ++ py "        ".

Definition sidebar_block : st.element :=
  st.sidebar
    [ st.header (light_bulb ++ py " Example Questions");
      st.markdown (Some example_questions);
      st.divider;
      st.button (wastebasket ++ py " Clear Chat History") ].

Definition user_message (user_input : str) : Message.t :=
  {| Message.role := py "user";
     Message.content := Some user_input;
     Message.source := None |}.

Definition assistant_message (response : AgentResponse) : Message.t :=
  {| Message.role := py "assistant";
     Message.content := answer response;
     Message.source := Some (source response) |}.

(** Lines 204-227: the sidebar, and the button in it. *)
Definition draw_sidebar (input : run_input) (messages : list Message.t)
    (drawn : list st.element) : page :=
  if clear_clicked input
  then {| session_state := Some [cleared_message];
          drawn := drawn ++ [sidebar_block];
          ended := rerun |}
  else {| session_state := Some messages;
          drawn := drawn ++ [sidebar_block];
          ended := finished |}.

Definition main (input : run_input) (session : option (list Message.t))
  : eff page :=
  let api_key := OPENAI_API_KEY input in
  let key_missing :=               (* [not api_key or api_key == "..."] *)
    match api_key with
    | None => true
    | Some key => negb (truthy key) || str_eqb key placeholder_key
    end in
  match api_key, key_missing with
  | Some key, false =>
      (* [if "messages" not in st.session_state] *)
      let messages :=
        match session with
        | None => [welcome_message]
        | Some messages => messages
        end in
      let drawn :=
        page_head ++ map show_message messages
        ++ [st.chat_input (py "Type your question here...")] in
      match chat_input input with
      | Some user_input =>
          if truthy user_input then
            if negb (truthy (strip user_input)) then
              Ret {| session_state := Some messages;
                     drawn := drawn
                              ++ [st.warning (py "Please enter a valid question.")];
                     ended := returned |}
            else
              let messages := messages ++ [user_message user_input] in
              let drawn :=
                drawn ++ [st.chat_message (py "user") [st.markdown (Some user_input)]] in
              response <- get_agent_response user_input key ;;
              let drawn :=
                drawn
                ++ [st.chat_message (py "assistant")
                      [ st.spinner (py "Thinking...") [];
                        st.markdown (answer response);
                        source_caption (source response) ]] in
              let messages := messages ++ [assistant_message response] in
              Ret (draw_sidebar input messages drawn)
          else Ret (draw_sidebar input messages drawn)
      | None => Ret (draw_sidebar input messages drawn)
      end
  | _, _ =>
      Ret {| session_state := session;
             drawn := page_head ++ key_missing_notice;
             ended := stopped |}
  end.

(** The run Streamlit starts after [st.rerun()]: same environment, same
    session state, no widget value pending. *)
Definition again (input : run_input) : run_input :=
  {| OPENAI_API_KEY := OPENAI_API_KEY input;
     chat_input := None;
     clear_clicked := false |}.

(** One user action: a run of [main], followed by the run [st.rerun()]
    asks for, if it does. *)
Definition user_action (input : run_input) (session : option (list Message.t))
  : eff page :=
  p <- main input session ;;
  match ended p with
  | rerun => main (again input) (session_state p)
  | _ => Ret p
  end.

(* ===================================================================== *)
(** ** Running a computation against a service *)
(* ===================================================================== *)

Inductive outcome (A : Type) : Type :=
| Returns (a : A)
| Raises (e : exception).

Arguments Returns {A} a.
Arguments Raises {A} e.

Section Run.

(** The service and whatever state it keeps between calls. *)
Variable World : Type.
Variable service : World -> request -> reply * World.

(** [run p w] is how [p] ends when started in world [w], the world it
    leaves, and the requests it sent, in order. *)
Fixpoint run {A : Type} (p : eff A) (w : World)
  : outcome A * World * list request :=
  match p with
  | Ret a => (Returns a, w, [])
  | Raise e => (Raises e, w, [])
  | Call req k =>
      let '(r, w1) := service w req in
      let '(out, w2, calls) := run (k r) w1 in
      (out, w2, req :: calls)
  end.

End Run.

Arguments run {World} service {A} p w.

(* ===================================================================== *)
(** ** Vocabulary of the statements *)
(* ===================================================================== *)

(** "Empty or whitespace-only". *)
Definition whitespace_only (s : str) : bool := forallb isspace s.

(** The lookup loop returns the answer of the first entry carrying the
    matched question. *)
Definition first_entry_for (entries : list QA.entry) (m : str) (qa : QA.entry)
  : Prop :=
  exists pre post,
    entries = pre ++ qa :: post /\ QA.question qa = m /\
    Forall (fun x => QA.question x <> m) pre.

(** The text [get_openai_response] returns for a given reply of the
    service. *)
Definition fallback_text (r : reply) : option str :=
  match r with
  | Completed response =>
      match choices response with
      | content :: _ => content
      | [] => Some (apology ++ py "list index out of range")
      end
  | Failed e => Some (apology ++ exc_str e)
  end.

(** The number a decimal numeral denotes: [None] for the empty string
    and for a string with a character that is no digit. *)
Fixpoint decimal_from (acc : Z) (s : str) : option Z :=
  match s with
  | [] => Some acc
  | c :: s' =>
      if ((48 <=? c) && (c <=? 57))%N
      then decimal_from (10 * acc + Z.of_N (c - 48)) s'
      else None
  end.

Definition decimal_value (s : str) : option Z :=
  match s with
  | [] => None
  | _ :: _ => decimal_from 0 s
  end.

(** A service that completes every request with one choice whose
    message has no content. *)
Definition silent_service (w : nat) (req : request) : reply * nat :=
  (Completed {| choices := [None] |}, S w).

(** Two services for the examples.  Their state counts the calls made. *)
Definition rejecting_service (w : nat) (req : request) : reply * nat :=
  (Failed {| exc_kind := AuthenticationError;
             exc_str := py "Error code: 401 - Incorrect API key provided" |},
   S w).

Definition sunny_service (w : nat) (req : request) : reply * nat :=
  (Completed {| choices := [Some (py "I cannot check the weather.")] |}, S w).

Section Vocabulary.

Variable scorer : str -> str -> Q.
Variable query : str.

(** [l[i]] is [choice], its score is [s], no element of [l] scores more,
    and every element before position [i] scores strictly less. *)
Definition first_max (l : list str) (choice : str) (s : Q) (i : nat) : Prop :=
  nth_error l i = Some choice /\
  s = scorer query choice /\
  (forall c, In c l -> scorer query c <= s) /\
  (forall j c, (j < i)%nat -> nth_error l j = Some c -> scorer query c < s).

(** The loop state after the choices [pre] have been visited. *)
Definition loop_inv (pre : list str) (score_cutoff : Q)
    (result : option (str * Q * nat)) : Prop :=
  match result with
  | None => score_cutoff = 0 /\ pre = []
  | Some (choice, s, i) => score_cutoff = s /\ first_max pre choice s i
  end.

Definition loop_post (l : list str) (result : option (str * Q * nat)) : Prop :=
  match result with
  | None => l = []
  | Some (choice, s, i) => first_max l choice s i
  end.

Variable corpus : list QA.entry.

(** Entry [qa] sits at position [i] of the corpus, scores [s] against the
    query, no entry scores more and every earlier entry scores less. *)
Definition selected (i : nat) (qa : QA.entry) (s : Q) : Prop :=
  nth_error corpus i = Some qa /\
  s = scorer query (QA.question qa) /\
  (forall qa', In qa' corpus -> scorer query (QA.question qa') <= s) /\
  (forall j qa', (j < i)%nat -> nth_error corpus j = Some qa' ->
                 scorer query (QA.question qa') < s).

(** The best similarity score over the corpus. *)
Definition best_score : Q :=
  fold_right (fun qa best => Qmax (scorer query (QA.question qa)) best)
    0 corpus.

End Vocabulary.

(** A credential [main] lets through: not empty and not the placeholder
    of the sample [.env] file. *)
Definition usable_key (key : str) : bool :=
  truthy key && negb (str_eqb key placeholder_key).

(** The messages a run works on: those of the session state, or the
    greeting when the session is new. *)
Definition opening (session : option (list Message.t)) : list Message.t :=
  match session with
  | None => [welcome_message]
  | Some messages => messages
  end.

(** What a run with a usable key draws before it looks at the chat
    input. *)
Definition replay (messages : list Message.t) : list st.element :=
  page_head ++ map show_message messages
  ++ [st.chat_input (py "Type your question here...")].

(** What a run draws for a question it answers with [response]. *)
Definition live_exchange (user_input : str) (response : AgentResponse)
  : list st.element :=
  [ st.chat_message (py "user") [st.markdown (Some user_input)];
    st.chat_message (py "assistant")
      [ st.spinner (py "Thinking...") [];
        st.markdown (answer response);
        source_caption (source response) ] ].

(** The page of a run that answers [user_input] with [response]. *)
Definition answered_page (input : run_input) (session : option (list Message.t))
    (user_input : str) (response : AgentResponse) : page :=
  draw_sidebar input
    (opening session ++ [user_message user_input; assistant_message response])
    (replay (opening session) ++ live_exchange user_input response).

(** The page of a run stopped for want of a usable key. *)
Definition key_missing_page (session : option (list Message.t)) : page :=
  {| session_state := session;
     drawn := page_head ++ key_missing_notice;
     ended := stopped |}.

(** The page of a run that refuses a whitespace-only submission. *)
Definition refused_page (session : option (list Message.t)) : page :=
  {| session_state := Some (opening session);
     drawn := replay (opening session)
              ++ [st.warning (py "Please enter a valid question.")];
     ended := returned |}.

(** The page after a click on the clear button: what the run started by
    [st.rerun()] leaves. *)
Definition cleared_page : page :=
  {| session_state := Some [cleared_message];
     drawn := replay [cleared_message] ++ [sidebar_block];
     ended := finished |}.

(** The page a user action ends on, [p] being the page of its first
    run, when that run got as far as the sidebar. *)
Definition settle (input : run_input) (p : page) : page :=
  if clear_clicked input then cleared_page else p.

(** A list of question/answer exchanges: a user message without source,
    then an assistant message with a non-empty source, and so on. *)
Inductive exchanges : list Message.t -> Prop :=
| exchanges_nil : exchanges []
| exchanges_cons (q src : str) (a : option str) (rest : list Message.t) :
    src <> [] ->
    exchanges rest ->
    exchanges ({| Message.role := py "user";
                  Message.content := Some q;
                  Message.source := None |}
               :: {| Message.role := py "assistant";
                     Message.content := a;
                     Message.source := Some src |}
               :: rest).

(** A history as [main] builds it: the greeting, or the message left by
    the clear button, followed by exchanges. *)
Definition conversation (messages : list Message.t) : Prop :=
  exists first rest,
    messages = first :: rest /\
    (first = welcome_message \/ first = cleared_message) /\
    exchanges rest.

Definition session_ok (session : option (list Message.t)) : Prop :=
  match session with
  | None => True
  | Some messages => conversation messages
  end.

Section Sessions.

Variable World : Type.
Variable service : World -> request -> reply * World.

(** The session state after a series of user actions, the service
    starting in state [w]. *)
Fixpoint session_after (inputs : list run_input)
    (session : option (list Message.t)) (w : World)
  : option (list Message.t) :=
  match inputs with
  | [] => session
  | input :: rest =>
      match run service (user_action input session) w with
      | (Returns p, w', _) => session_after rest (session_state p) w'
      | (Raises _, _, _) => session
      end
  end.

End Sessions.

Arguments session_after {World} service inputs session w.

(** Two inputs for the examples. *)
Definition asks (question : str) : run_input :=
  {| OPENAI_API_KEY := Some (py "sk-test");
     chat_input := Some question;
     clear_clicked := false |}.

Definition clears : run_input :=
  {| OPENAI_API_KEY := Some (py "sk-test");
     chat_input := None;
     clear_clicked := true |}.

(** For the bound on the scores of blank queries: the number of
    characters of a string other than the space, and the running lower
    bounds of a row of the edit-distance table. *)
Definition weight (s : str) : nat :=
  length (filter (fun c => negb (c =? 32)%N) s).

Definition unit_weight (c : char) : nat := if (c =? 32)%N then 0%nat else 1%nat.

Fixpoint bounds (base : nat) (b : str) : list nat :=
  match b with
  | [] => []
  | y :: b' => (base + unit_weight y)%nat :: bounds (base + unit_weight y) b'
  end.

(** A word made of U+0085 and U+00A0 only. *)
Definition nbsp_word (t : str) : bool :=
  truthy t && forallb (fun c => (c =? 133) || (c =? 160))%N t.

(** A word without U+0085 and U+00A0. *)
Definition plain_word (t : str) : bool :=
  truthy t && forallb (fun c => negb ((c =? 133) || (c =? 160)))%N t.

(** A string without U+0085 (next line) and U+00A0 (no-break space). *)
Definition no_nbsp (s : str) : bool :=
  forallb (fun c => negb ((c =? 133) || (c =? 160)))%N s.

(* ===================================================================== *)
(** ** Facts about the library model *)
(* ===================================================================== *)

Lemma Qlt_bool_iff (a b : Q) : process.Qlt_bool a b = true <-> a < b.
Proof.
  unfold process.Qlt_bool. rewrite negb_true_iff.
  split; intro H.
  - apply Qnot_le_lt. intro Hle. apply Qle_bool_iff in Hle. congruence.
  - destruct (Qle_bool b a) eqn:E; [|reflexivity].
    apply Qle_bool_iff in E. exfalso. apply (Qlt_not_le _ _ H E).
Qed.

Lemma Qnat_nonneg (n : nat) : 0 <= fuzz.Qnat n.
Proof.
  unfold fuzz.Qnat. change 0 with (inject_Z 0).
  rewrite <- Zle_Qle. lia.
Qed.

Lemma norm_distance_range (dist lensum : nat) :
  0 <= fuzz.norm_distance dist lensum 0 <= 100.
Proof.
  unfold fuzz.norm_distance.
  set (score := match lensum with O => 100 | _ => _ end).
  assert (Hs : score <= 100).
  { subst score. destruct lensum as [|l]; [apply Qle_refl|].
    assert (H0 : 0 <= 100 * fuzz.Qnat dist / fuzz.Qnat (S l)).
    { apply Qle_shift_div_l.
      - unfold fuzz.Qnat. change 0 with (inject_Z 0). rewrite <- Zlt_Qlt. lia.
      - rewrite Qmult_0_l. apply Qmult_le_0_compat; [discriminate|].
        apply Qnat_nonneg. }
    revert H0. generalize (100 * fuzz.Qnat dist / fuzz.Qnat (S l)).
    intros x Hx. lra. }
  destruct (Qle_bool 0 score) eqn:E.
  - apply Qle_bool_iff in E. split; assumption.
  - split; [apply Qle_refl | discriminate].
Qed.

Lemma token_set_ratio_range (s1 s2 : str) :
  0 <= fuzz.token_set_ratio s1 s2 <= 100.
Proof.
  assert (H0 : 0 <= 0 <= 100) by (split; discriminate).
  assert (H100 : 0 <= 100 <= 100) by (split; discriminate).
  unfold fuzz.token_set_ratio.
  destruct (negb (truthy s1) || negb (truthy s2)); [exact H0|].
  destruct (negb (truthy (to_set (fuzz.split s1))) || _); [exact H0|].
  destruct (truthy _ && _); [exact H100|].
  cbv zeta.
  match goal with |- context [if ?b then _ else _] => destruct b end.
  - apply norm_distance_range.
  - repeat match goal with
           | |- context [fuzz.norm_distance ?d ?l 0] =>
               let H := fresh "R" in
               pose proof (norm_distance_range d l) as H;
               generalize dependent (fuzz.norm_distance d l 0); intros
           end.
    split.
    + apply Qle_trans with q; [tauto|]. apply Q.le_max_l.
    + apply Q.max_lub; [tauto|]. apply Q.max_lub; tauto.
Qed.

Section ExtractOneSpec.

Variable scorer : str -> str -> Q.
Hypothesis scorer_range : forall a b, 0 <= scorer a b <= 100.
Variable query : str.

Lemma first_max_new (pre : list str) (choice : str) :
  (forall c, In c pre -> scorer query c < scorer query choice) ->
  first_max scorer query (pre ++ [choice]) choice (scorer query choice) (length pre).
Proof.
  intros Hlt. repeat split.
  - rewrite nth_error_app2, Nat.sub_diag; [reflexivity | lia].
  - intros c Hin. apply in_app_or in Hin. destruct Hin as [Hin | [-> | []]].
    + apply Qlt_le_weak, Hlt, Hin.
    + apply Qle_refl.
  - intros j c Hj Hnth. rewrite nth_error_app1 in Hnth by exact Hj.
    apply Hlt. eapply nth_error_In; eassumption.
Qed.

Lemma first_max_keep (pre : list str) (choice c : str) (s : Q) (i : nat) :
  first_max scorer query pre choice s i -> scorer query c <= s ->
  first_max scorer query (pre ++ [c]) choice s i.
Proof.
  intros (Hnth & Hs & Hmax & Hfirst) Hc.
  assert (Hi : (i < length pre)%nat)
    by (apply nth_error_Some; congruence).
  repeat split.
  - rewrite nth_error_app1; assumption.
  - assumption.
  - intros c' Hin. apply in_app_or in Hin. destruct Hin as [Hin | [<- | []]].
    + apply Hmax, Hin.
    + exact Hc.
  - intros j c' Hj Hnth'. rewrite nth_error_app1 in Hnth' by lia.
    eapply Hfirst; eassumption.
Qed.

Lemma first_max_optimal (pre rest : list str) (choice : str) (s : Q) (i : nat) :
  first_max scorer query pre choice s i -> 100 <= s ->
  first_max scorer query (pre ++ rest) choice s i.
Proof.
  intros (Hnth & Hs & Hmax & Hfirst) H100.
  assert (Hi : (i < length pre)%nat)
    by (apply nth_error_Some; congruence).
  repeat split.
  - rewrite nth_error_app1; assumption.
  - assumption.
  - intros c Hin. apply in_app_or in Hin. destruct Hin as [Hin | Hin].
    + apply Hmax, Hin.
    + apply Qle_trans with 100; [apply scorer_range | exact H100].
  - intros j c Hj Hnth'. rewrite nth_error_app1 in Hnth' by lia.
    eapply Hfirst; eassumption.
Qed.

Lemma extractOne_loop_spec (rest pre : list str) (score_cutoff : Q)
    (result : option (str * Q * nat)) :
  loop_inv scorer query pre score_cutoff result ->
  loop_post scorer query (pre ++ rest)
    (process.extractOne_loop scorer query rest (length pre) score_cutoff result).
Proof.
  revert pre score_cutoff result.
  induction rest as [|choice rest IH]; intros pre score_cutoff result Hinv.
  - simpl. rewrite app_nil_r.
    destruct result as [[[c s] i]|]; simpl in *; tauto.
  - assert (Happ : pre ++ choice :: rest = (pre ++ [choice]) ++ rest)
      by (rewrite <- app_assoc; reflexivity).
    assert (Hlen : S (length pre) = length (pre ++ [choice]))
      by (rewrite length_app; simpl; lia).
    pose proof (scorer_range query choice) as [Hge0 Hle100].
    cbn [process.extractOne_loop]. cbv zeta.
    destruct result as [[[c s] i]|]; simpl in Hinv.
    + (* a best choice is already recorded *)
      destruct Hinv as [-> Hfm].
      assert (Hs0 : 0 <= s).
      { destruct Hfm as (_ & -> & _). apply scorer_range. }
      unfold process.call_scorer.
      destruct (Qle_bool s (scorer query choice)) eqn:Ecut.
      * rewrite Ecut. cbn [andb].
        destruct (process.Qlt_bool s (scorer query choice)) eqn:Elt; simpl.
        -- apply Qlt_bool_iff in Elt.
           assert (Hnew : first_max scorer query (pre ++ [choice]) choice
                            (scorer query choice) (length pre)).
           { apply first_max_new. intros c' Hin.
             destruct Hfm as (_ & _ & Hmax & _).
             eapply Qle_lt_trans; [apply Hmax, Hin | exact Elt]. }
           destruct (Qeq_bool (scorer query choice) 100) eqn:E100.
           ++ apply Qeq_bool_iff in E100. rewrite Happ.
              apply first_max_optimal; [exact Hnew|].
              rewrite E100. apply Qle_refl.
           ++ rewrite Happ, Hlen. apply IH. simpl. split; [reflexivity|exact Hnew].
        -- assert (Hle : scorer query choice <= s).
           { apply Qnot_lt_le. intro Hlt. apply Qlt_bool_iff in Hlt. congruence. }
           pose proof (first_max_keep pre c choice s i Hfm Hle) as Hkeep.
           destruct (Qeq_bool (scorer query choice) 100) eqn:E100.
           ++ apply Qeq_bool_iff in E100. rewrite Happ.
              apply first_max_optimal; [exact Hkeep|].
              rewrite <- E100. exact Hle.
           ++ rewrite Happ, Hlen. apply IH. simpl. split; [reflexivity|exact Hkeep].
      * (* the scorer reports 0: below the cutoff *)
        assert (Hlt : scorer query choice < s).
        { apply Qnot_le_lt. intro Hle. apply Qle_bool_iff in Hle. congruence. }
        assert (E0 : Qle_bool s 0 && process.Qlt_bool s 0 = false).
        { destruct (process.Qlt_bool s 0) eqn:E; [|apply andb_false_r].
          apply Qlt_bool_iff in E. exfalso. apply (Qlt_not_le _ _ E Hs0). }
        rewrite E0. change (Qeq_bool 0 100) with false. cbv iota.
        rewrite Happ, Hlen. apply IH. simpl. split; [reflexivity|].
        apply first_max_keep; [exact Hfm | apply Qlt_le_weak, Hlt].
    + (* first choice *)
      destruct Hinv as [-> ->]. unfold process.call_scorer.
      assert (E0 : Qle_bool 0 (scorer query choice) = true)
        by (apply Qle_bool_iff, Hge0).
      rewrite E0. cbv zeta. rewrite E0. simpl.
      assert (Hnew : first_max scorer query [choice] choice (scorer query choice) 0).
      { apply (first_max_new []). intros c' []. }
      destruct (Qeq_bool (scorer query choice) 100) eqn:E100.
      * apply Qeq_bool_iff in E100.
        apply (first_max_optimal [choice] rest); [exact Hnew|].
        rewrite E100. apply Qle_refl.
      * apply (IH [choice]). simpl. split; [reflexivity|exact Hnew].
Qed.

Lemma extractOne_spec (choices : list str) :
  loop_post scorer query choices (process.extractOne scorer query choices).
Proof.
  apply (extractOne_loop_spec choices [] 0 None). simpl. tauto.
Qed.

End ExtractOneSpec.

(* ===================================================================== *)
(** ** Facts about strings *)
(* ===================================================================== *)

Lemma str_eqb_eq (a b : str) : str_eqb a b = true <-> a = b.
Proof.
  revert b. induction a as [|x a IH]; intros [|y b]; simpl;
    try (split; [discriminate | discriminate]); [tauto|].
  rewrite andb_true_iff, N.eqb_eq, IH.
  split; [intros [-> ->]; reflexivity | intros [= -> ->]; tauto].
Qed.

Lemma str_eqb_refl (a : str) : str_eqb a a = true.
Proof. apply str_eqb_eq. reflexivity. Qed.

Lemma lstrip_whitespace (s : str) : whitespace_only s = true -> lstrip s = [].
Proof.
  induction s as [|c s IH]; simpl; [reflexivity|].
  rewrite andb_true_iff. intros [-> Hs]. exact (IH Hs).
Qed.

Lemma lstrip_nil_whitespace (s : str) : lstrip s = [] -> whitespace_only s = true.
Proof.
  induction s as [|c s IH]; simpl; [reflexivity|].
  destruct (isspace c); [exact IH | discriminate].
Qed.

Lemma lstrip_head (s : str) :
  match lstrip s with [] => True | c :: _ => isspace c = false end.
Proof.
  induction s as [|c s IH]; simpl; [exact I|].
  destruct (isspace c) eqn:E; [exact IH | exact E].
Qed.

Lemma whitespace_only_rev (s : str) :
  whitespace_only (rev s) = whitespace_only s.
Proof.
  unfold whitespace_only.
  destruct (forallb isspace s) eqn:E.
  - rewrite forallb_forall in *. intros c Hc. apply E, in_rev, Hc.
  - destruct (forallb isspace (rev s)) eqn:E'; [|reflexivity].
    rewrite <- E. symmetry. rewrite forallb_forall in *.
    intros c Hc. apply E'. rewrite <- in_rev. exact Hc.
Qed.

Lemma is_blank_iff (s : str) :
  is_blank s = true <-> whitespace_only s = true.
Proof.
  unfold is_blank, strip, rstrip. split.
  - destruct s as [|c s]; [reflexivity|]. cbn [truthy negb orb].
    rewrite negb_true_iff. intros H.
    assert (Hnil : lstrip (rev (lstrip (c :: s))) = []).
    { destruct (lstrip (rev (lstrip (c :: s)))) as [|n l]; [reflexivity|].
      destruct (rev (n :: l)) eqn:E; [|discriminate].
      apply (f_equal (@rev _)) in E. rewrite rev_involutive in E. discriminate. }
    apply lstrip_nil_whitespace in Hnil. rewrite whitespace_only_rev in Hnil.
    pose proof (lstrip_head (c :: s)) as Hh.
    destruct (lstrip (c :: s)) as [|d t] eqn:E.
    + apply lstrip_nil_whitespace, E.
    + simpl in Hnil. rewrite Hh in Hnil. discriminate.
  - intros H. rewrite (lstrip_whitespace s H). simpl. apply orb_true_r.
Qed.

Lemma split_on_whitespace (space : char -> bool) (s : str) :
  forallb space s = true -> split_on space [] s = [].
Proof.
  induction s as [|c s IH]; simpl; [reflexivity|].
  rewrite andb_true_iff. intros [-> Hs]. exact (IH Hs).
Qed.

Lemma weight_cons (c : char) (s : str) :
  weight (c :: s) = (unit_weight c + weight s)%nat.
Proof.
  unfold weight, unit_weight. simpl. destruct (c =? 32)%N; reflexivity.
Qed.

Lemma indel_row_bound (x : char) (b : str) :
  (forall y, In y b -> x = y -> x = 32%N) ->
  forall (diag left : nat) (above : list nat) (base : nat),
    (base <= diag)%nat -> (base + unit_weight x <= left)%nat ->
    Forall2 le (bounds base b) above ->
    Forall2 le (bounds (base + unit_weight x) b)
      (fuzz.indel_row x b diag left above).
Proof.
  induction b as [|y b IH]; intros Hcommon diag left above base Hd Hl Hab;
    simpl in *.
  - inversion Hab; subst. constructor.
  - inversion Hab as [|bd up bs above' Hup Hrest]; subst. simpl.
    assert (Hv : (base + unit_weight x + unit_weight y
                  <= (if (x =? y)%N then diag else S (Nat.min up left)))%nat).
    { destruct (N.eqb_spec x y) as [Heq | Hne].
      - pose proof (Hcommon y (or_introl eq_refl) Heq) as Hx.
        subst y. subst x. change (unit_weight 32%N) with 0%nat. lia.
      - unfold unit_weight in *.
        destruct (x =? 32)%N, (y =? 32)%N; lia. }
    constructor; [exact Hv|].
    replace (base + unit_weight x + unit_weight y)%nat
      with (base + unit_weight y + unit_weight x)%nat by lia.
    apply IH.
    + intros y' Hy'. apply Hcommon. right. exact Hy'.
    + exact Hup.
    + lia.
    + exact Hrest.
Qed.

Lemma indel_rows_bound (a b : str) :
  (forall x y, In x a -> In y b -> x = y -> x = 32%N) ->
  forall (d0 : nat) (rest : list nat) (base : nat),
    (base <= d0)%nat -> Forall2 le (bounds base b) rest ->
    exists d rest',
      fuzz.indel_rows a b (d0 :: rest) = d :: rest' /\
      (base + weight a <= d)%nat /\
      Forall2 le (bounds (base + weight a) b) rest'.
Proof.
  induction a as [|x a IH]; intros Hcommon d0 rest base Hd Hrest; simpl.
  - exists d0, rest. unfold weight. simpl. rewrite Nat.add_0_r. auto.
  - rewrite weight_cons.
    destruct (IH (fun x' y Hx Hy => Hcommon x' y (or_intror Hx) Hy)
                (S d0) (fuzz.indel_row x b d0 (S d0) rest)
                (base + unit_weight x)%nat)
      as (d & rest' & Heq & Hdb & Hb).
    + unfold unit_weight. destruct (x =? 32)%N; lia.
    + apply indel_row_bound; auto; [|unfold unit_weight; destruct (x =? 32)%N; lia].
      intros y Hy. apply (Hcommon x y (or_introl eq_refl) Hy).
    + exists d, rest'. rewrite Heq.
      replace (base + (unit_weight x + weight a))%nat
        with (base + unit_weight x + weight a)%nat by lia.
      auto.
Qed.

Lemma bounds_last (b : str) (base d : nat) (rest : list nat) :
  (base <= d)%nat -> Forall2 le (bounds base b) rest ->
  (base + weight b <= last (d :: rest) 0%nat)%nat.
Proof.
  revert base d rest. induction b as [|y b IH]; intros base d rest Hd Hrest.
  - inversion Hrest; subst. unfold weight. simpl. lia.
  - simpl in Hrest. inversion Hrest as [|bd up bs rest' Hup Hrest']; subst.
    rewrite weight_cons.
    change (last (d :: up :: rest') 0%nat) with (last (up :: rest') 0%nat).
    specialize (IH _ up rest' Hup Hrest'). lia.
Qed.

Lemma bounds_seq (b : str) (base k : nat) :
  (base <= k)%nat -> Forall2 le (bounds base b) (seq (S k) (length b)).
Proof.
  revert base k. induction b as [|y b IH]; intros base k Hk; simpl.
  - constructor.
  - constructor.
    + unfold unit_weight. destruct (y =? 32)%N; lia.
    + apply IH. unfold unit_weight. destruct (y =? 32)%N; lia.
Qed.

Lemma indel_distance_lower (a b : str) :
  (forall x, In x a -> In x b -> x = 32%N) ->
  (weight a + weight b <= fuzz.indel_distance a b)%nat.
Proof.
  intros Hcommon. unfold fuzz.indel_distance.
  change (seq 0 (S (length b))) with (0%nat :: seq 1 (length b)).
  destruct (indel_rows_bound a b
              (fun x y Hx Hy Hxy =>
                 Hcommon x Hx (eq_ind_r (fun z => In z b) Hy Hxy))
              0%nat (seq 1 (length b)) 0%nat (le_n 0) (bounds_seq b 0 0 (le_n 0)))
    as (d & rest' & -> & Hd & Hb).
  pose proof (bounds_last b _ d rest' Hd Hb). lia.
Qed.

Lemma python_space_narrow (c : char) :
  isspace c = true -> (c <? 256)%N = true ->
  fuzz.is_space true c = false ->
  ((c =? 133) || (c =? 160))%N = true.
Proof.
  unfold isspace, fuzz.is_space. intros Hs Hc Hn.
  rewrite N.ltb_lt in Hc.
  repeat rewrite orb_true_iff in Hs. repeat rewrite andb_true_iff in Hs.
  repeat rewrite N.leb_le in Hs. repeat rewrite N.eqb_eq in Hs.
  rewrite orb_false_iff in Hn. repeat rewrite andb_false_iff in Hn.
  repeat rewrite N.leb_gt in Hn.
  rewrite orb_true_iff, !N.eqb_eq. lia.
Qed.

Lemma forallb_rev_eq (P : char -> bool) (l : str) :
  forallb P (rev l) = forallb P l.
Proof.
  destruct (forallb P l) eqn:E.
  - rewrite forallb_forall in *. intros c Hc. apply E, in_rev, Hc.
  - destruct (forallb P (rev l)) eqn:E'; [|reflexivity].
    rewrite <- E. symmetry. rewrite forallb_forall in *.
    intros c Hc. apply E'. rewrite <- in_rev. exact Hc.
Qed.

Lemma truthy_rev (x : char) (l : str) : truthy (rev (x :: l)) = true.
Proof.
  destruct (rev (x :: l)) eqn:E; [|reflexivity].
  apply (f_equal (@length _)) in E. rewrite length_rev in E. discriminate.
Qed.

Lemma split_on_nbsp (s cur : str) :
  forallb isspace s = true -> fuzz.one_byte s = true ->
  forallb (fun c => (c =? 133) || (c =? 160))%N cur = true ->
  Forall (fun t => nbsp_word t = true) (split_on (fuzz.is_space true) cur s).
Proof.
  revert cur. induction s as [|c s IH]; intros cur Hs Hb Hcur.
  - simpl. destruct cur as [|x cur]; constructor; [|constructor].
    unfold nbsp_word. rewrite forallb_rev_eq, truthy_rev. exact Hcur.
  - simpl in Hs, Hb. apply andb_true_iff in Hs. apply andb_true_iff in Hb.
    destruct Hs as [Hc Hs], Hb as [Hc256 Hb].
    cbn [split_on]. destruct (fuzz.is_space true c) eqn:Hn.
    + destruct cur as [|x cur]; [apply IH; auto|].
      constructor; [|apply IH; auto].
      unfold nbsp_word. rewrite forallb_rev_eq, truthy_rev. exact Hcur.
    + apply IH; auto. simpl.
      rewrite (python_space_narrow c Hc Hc256 Hn). exact Hcur.
Qed.

Lemma to_set_Forall (P : str -> Prop) (l : list str) :
  Forall P l -> Forall P (to_set l).
Proof.
  induction 1 as [|x l Hx Hl IH]; simpl; [constructor|].
  destruct (mem x l); [exact IH | constructor; assumption].
Qed.

Lemma insert_sorted_Forall (P : str -> Prop) (x : str) (l : list str) :
  P x -> Forall P l -> Forall P (insert_sorted x l).
Proof.
  intros Hx. induction 1 as [|y l Hy Hl IH]; simpl; [repeat constructor; auto|].
  destruct (str_leb x y); repeat constructor; auto.
Qed.

Lemma sorted_Forall (P : str -> Prop) (l : list str) :
  Forall P l -> Forall P (sorted l).
Proof.
  unfold sorted. induction 1 as [|x l Hx Hl IH]; simpl; [constructor|].
  apply insert_sorted_Forall; assumption.
Qed.

Lemma nbsp_plain_differ (t u : str) :
  nbsp_word t = true -> plain_word u = true -> t <> u.
Proof.
  unfold nbsp_word, plain_word. intros Ht Hu ->.
  apply andb_true_iff in Ht. apply andb_true_iff in Hu.
  destruct Ht as [_ Ht], Hu as [Hne Hu].
  destruct u as [|c u]; [discriminate|]. simpl in Ht, Hu.
  destruct ((c =? 133) || (c =? 160))%N; discriminate.
Qed.

Lemma mem_false (x : str) (l : list str) :
  (forall y, In y l -> x <> y) -> mem x l = false.
Proof.
  intros H. unfold mem. destruct (existsb (str_eqb x) l) eqn:E; [|reflexivity].
  apply existsb_exists in E. destruct E as (y & Hy & Heq).
  apply str_eqb_eq in Heq. exfalso. exact (H y Hy Heq).
Qed.

Lemma filter_none {A : Type} (f : A -> bool) (l : list A) :
  (forall x, In x l -> f x = false) -> filter f l = [].
Proof.
  induction l as [|x l IH]; intros H; simpl; [reflexivity|].
  rewrite (H x (or_introl eq_refl)). apply IH. intros y Hy. apply H. right. exact Hy.
Qed.

Lemma filter_all {A : Type} (f : A -> bool) (l : list A) :
  (forall x, In x l -> f x = true) -> filter f l = l.
Proof.
  induction l as [|x l IH]; intros H; simpl; [reflexivity|].
  rewrite (H x (or_introl eq_refl)). f_equal. apply IH.
  intros y Hy. apply H. right. exact Hy.
Qed.

(** The characters and the weight of [" ".join(words)], for words of
    U+0085 and U+00A0. *)
Lemma join_nbsp (l : list str) :
  Forall (fun t => nbsp_word t = true) l ->
  (forall c, In c (join (py " ") l) -> c = 32%N \/ c = 133%N \/ c = 160%N) /\
  (length (join (py " ") l) <= 2 * weight (join (py " ") l))%nat.
Proof.
  assert (Hword : forall t, nbsp_word t = true ->
            (forall c, In c t -> c = 133%N \/ c = 160%N) /\
            (1 <= length t)%nat /\ weight t = length t).
  { intros t Ht. unfold nbsp_word in Ht. apply andb_true_iff in Ht.
    destruct Ht as [Hne Hall]. rewrite forallb_forall in Hall.
    repeat split.
    - intros c Hc. specialize (Hall c Hc).
      rewrite orb_true_iff, !N.eqb_eq in Hall. exact Hall.
    - destruct t; [discriminate | simpl; lia].
    - unfold weight. f_equal. apply filter_all. intros c Hc.
      specialize (Hall c Hc). rewrite orb_true_iff, !N.eqb_eq in Hall.
      destruct Hall as [-> | ->]; reflexivity. }
  assert (Happ : forall a b, weight (a ++ b) = (weight a + weight b)%nat).
  { intros a b. unfold weight. rewrite filter_app, length_app. reflexivity. }
  induction 1 as [|t l Ht Hl [IHc IHw]]; cbn [join].
  - split; [intros c [] | unfold weight; simpl; lia].
  - destruct (Hword t Ht) as (Htc & Htl & Htw).
    destruct l as [|u l].
    + split; [intros c Hc; right; apply Htc, Hc | lia].
    + split.
      * intros c Hc. apply in_app_or in Hc. destruct Hc as [Hc | Hc].
        -- right. apply Htc, Hc.
        -- apply in_app_or in Hc. destruct Hc as [[<- | []] | Hc].
           ++ left. reflexivity.
           ++ apply IHc, Hc.
      * rewrite !length_app, !Happ.
        change (length (py " ")) with 1%nat.
        change (weight (py " ")) with 0%nat. lia.
Qed.

Lemma norm_distance_low (d l : nat) :
  (0 < l)%nat -> (3 * l < 10 * d)%nat -> fuzz.norm_distance d l 0 < 70.
Proof.
  intros Hl Hd. unfold fuzz.norm_distance.
  destruct l as [|l']; [lia|]. set (l := S l') in *.
  assert (Hq : 30 < 100 * fuzz.Qnat d / fuzz.Qnat l).
  { apply Qlt_shift_div_l.
    - unfold fuzz.Qnat. change 0 with (inject_Z 0). rewrite <- Zlt_Qlt. lia.
    - unfold fuzz.Qnat. change 30 with (inject_Z 30).
      change 100 with (inject_Z 100). rewrite <- !inject_Z_mult, <- Zlt_Qlt.
      lia. }
  revert Hq. generalize (100 * fuzz.Qnat d / fuzz.Qnat l). intros x Hx.
  destruct (Qle_bool 0 (100 - x)); [lra | reflexivity].
Qed.

Lemma token_set_ratio_nbsp (q c : str) :
  Forall (fun t => nbsp_word t = true) (fuzz.split q) ->
  forallb plain_word (to_set (fuzz.split c)) = true ->
  forallb (fun x => negb ((x =? 133) || (x =? 160)))%N
    (join (py " ") (sorted (to_set (fuzz.split c)))) = true ->
  (3 * length (join (py " ") (sorted (to_set (fuzz.split c))))
   < 10 * weight (join (py " ") (sorted (to_set (fuzz.split c)))))%nat ->
  fuzz.token_set_ratio q c < 70.
Proof.
  intros Hq Hc HB Hlen.
  pose proof (to_set_Forall _ _ Hq) as HTA.
  rewrite forallb_forall in Hc.
  unfold fuzz.token_set_ratio.
  set (TA := to_set (fuzz.split q)) in *.
  set (TB := to_set (fuzz.split c)) in *.
  destruct (negb (truthy q) || negb (truthy c)); [reflexivity|].
  destruct (negb (truthy TA) || negb (truthy TB)); [reflexivity|].
  assert (Hdiff : forall t u, In t TA -> In u TB -> t <> u).
  { intros t u Ht Hu. apply nbsp_plain_differ; [|apply Hc, Hu].
    rewrite Forall_forall in HTA. apply HTA, Ht. }
  assert (Hi : intersection TA TB = []).
  { apply filter_none. intros t Ht. apply mem_false.
    intros u Hu. apply Hdiff; assumption. }
  assert (Hab : difference TA TB = TA).
  { apply filter_all. intros t Ht. apply negb_true_iff, mem_false.
    intros u Hu. apply Hdiff; assumption. }
  assert (Hba : difference TB TA = TB).
  { apply filter_all. intros u Hu. apply negb_true_iff, mem_false.
    intros t Ht Heq. apply (Hdiff t u Ht Hu). symmetry. exact Heq. }
  rewrite Hi, Hab, Hba. cbn [truthy andb join length Nat.eqb fuzz.nonzero Nat.add].
  set (A := join (py " ") (sorted TA)) in *.
  set (B := join (py " ") (sorted TB)) in *.
  destruct (join_nbsp (sorted TA) (sorted_Forall _ _ HTA)) as [HAc HAw].
  fold A in HAc, HAw.
  assert (Hd : (weight A + weight B <= fuzz.indel_distance A B)%nat).
  { apply indel_distance_lower. intros x HxA HxB.
    rewrite forallb_forall in HB. specialize (HB x HxB).
    destruct (HAc x HxA) as [-> | [-> | ->]]; [reflexivity | discriminate..]. }
  assert (HwB : (weight B <= length B)%nat) by apply filter_length_le.
  apply norm_distance_low; lia.
Qed.

(** A query [str.strip()] finds blank scores below the threshold against
    every corpus question: the scorer finds no word in it, or only words
    of U+0085 and U+00A0, which share no letter with the corpus. *)
Lemma blank_scores_low (q : str) (qa : QA.entry) :
  whitespace_only q = true -> In qa PREDEFINED_QA ->
  fuzz.token_set_ratio q (QA.question qa) < FUZZY_THRESHOLD.
Proof.
  intros Hq Hin. destruct (fuzz.one_byte q) eqn:Hb.
  - assert (Hwords : Forall (fun t => nbsp_word t = true) (fuzz.split q)).
    { unfold fuzz.split. rewrite Hb. apply split_on_nbsp; auto. }
    destruct Hin as [<- | [<- | [<- | [<- | [<- | []]]]]];
      apply (token_set_ratio_nbsp q _ Hwords);
      solve [vm_compute; reflexivity | apply Nat.ltb_lt; vm_compute; reflexivity].
  - assert (Hsplit : fuzz.split q = []).
    { unfold fuzz.split. rewrite Hb. apply split_on_whitespace. exact Hq. }
    unfold fuzz.token_set_ratio. rewrite Hsplit. simpl.
    destruct (negb (truthy q) || negb (truthy (QA.question qa))); reflexivity.
Qed.

(* ===================================================================== *)
(** ** Facts about the matcher *)
(* ===================================================================== *)

Lemma answer_for_Some (entries : list QA.entry) (m a : str) :
  answer_for entries m = Some a <->
  exists qa, first_entry_for entries m qa /\ QA.answer qa = a.
Proof.
  induction entries as [|e entries IH]; simpl.
  - split; [discriminate|]. intros (qa & (pre & post & H & _) & _).
    destruct pre; discriminate.
  - destruct (str_eqb (QA.question e) m) eqn:E.
    + apply str_eqb_eq in E. split.
      * intros [= <-]. exists e. split; [|reflexivity].
        exists [], entries. repeat split; [exact E | constructor].
      * intros (qa & (pre & post & H & Hq & Hpre) & Ha).
        destruct pre as [|x pre]; simpl in H.
        -- injection H as -> _. congruence.
        -- injection H as -> _. inversion Hpre; subst. contradiction.
    + assert (Hne : QA.question e <> m).
      { intro Hq. apply str_eqb_eq in Hq. congruence. }
      rewrite IH. split.
      * intros (qa & (pre & post & H & Hq & Hpre) & Ha).
        exists qa. split; [|exact Ha].
        exists (e :: pre), post. subst entries. repeat split; auto.
      * intros (qa & (pre & post & H & Hq & Hpre) & Ha).
        destruct pre as [|x pre]; simpl in H.
        -- injection H as -> _. contradiction.
        -- injection H as -> ->. inversion Hpre; subst.
           exists qa. split; [|reflexivity]. exists pre, post. auto.
Qed.

Lemma answer_for_None (entries : list QA.entry) (m : str) :
  answer_for entries m = None <->
  Forall (fun x => QA.question x <> m) entries.
Proof.
  induction entries as [|e entries IH]; simpl.
  - split; [constructor | reflexivity].
  - destruct (str_eqb (QA.question e) m) eqn:E.
    + apply str_eqb_eq in E. split; [discriminate|].
      intros H. inversion H; subst. contradiction.
    + rewrite IH. split.
      * intros H. constructor; [|exact H].
        intro Hq. apply str_eqb_eq in Hq. congruence.
      * intros H. inversion H; assumption.
Qed.

Lemma answer_for_nth (entries : list QA.entry) (i : nat) (qa : QA.entry) :
  nth_error entries i = Some qa ->
  (forall j qa', (j < i)%nat -> nth_error entries j = Some qa' ->
                 QA.question qa' <> QA.question qa) ->
  answer_for entries (QA.question qa) = Some (QA.answer qa).
Proof.
  revert i. induction entries as [|e entries IH]; intros [|i] Hnth Hfirst;
    simpl in *; try discriminate.
  - injection Hnth as ->. rewrite str_eqb_refl. reflexivity.
  - destruct (str_eqb (QA.question e) (QA.question qa)) eqn:E.
    + apply str_eqb_eq in E. exfalso.
      apply (Hfirst 0%nat e); [lia | reflexivity | exact E].
    + apply (IH i Hnth). intros j qa' Hj Hnth'.
      apply (Hfirst (S j) qa'); [lia | exact Hnth'].
Qed.

Section MatcherSpec.

Variable scorer : str -> str -> Q.
Hypothesis scorer_range : forall a b, 0 <= scorer a b <= 100.
Variable corpus : list QA.entry.

Lemma extractOne_selected (query m : str) (s : Q) (i : nat) :
  process.extractOne scorer query (map QA.question corpus) = Some (m, s, i) ->
  exists qa, selected scorer query corpus i qa s /\ QA.question qa = m /\
             answer_for corpus m = Some (QA.answer qa).
Proof.
  intros Hex.
  pose proof (extractOne_spec scorer scorer_range query
                (map QA.question corpus)) as Hspec.
  rewrite Hex in Hspec. destruct Hspec as (Hnth & Hs & Hmax & Hfirst).
  rewrite nth_error_map in Hnth.
  revert Hnth.
  destruct (nth_error corpus i) as [qa|] eqn:Hqa; simpl; [|discriminate].
  intros [= <-].
  assert (Hsel : selected scorer query corpus i qa s).
  { repeat split; auto.
    - intros qa' Hin. apply Hmax, in_map, Hin.
    - intros j qa' Hj Hnth'. apply (Hfirst j); [exact Hj|].
      rewrite nth_error_map, Hnth'. reflexivity. }
  exists qa. repeat split; try apply Hsel.
  apply (answer_for_nth corpus i qa Hqa).
  intros j qa' Hj Hnth' Heq.
  destruct Hsel as (_ & _ & _ & Hlt).
  specialize (Hlt j qa' Hj Hnth'). rewrite Heq, <- Hs in Hlt.
  exact (Qlt_irrefl _ Hlt).
Qed.

Lemma extractOne_nonempty (query : str) :
  corpus <> [] ->
  exists m s i,
    process.extractOne scorer query (map QA.question corpus) = Some (m, s, i).
Proof.
  intros Hne.
  pose proof (extractOne_spec scorer scorer_range query
                (map QA.question corpus)) as Hspec.
  destruct (process.extractOne _ _ _) as [[[m s] i]|]; [eauto|].
  simpl in Hspec. destruct corpus; [congruence | discriminate].
Qed.

Lemma best_match_Some (query a : str) (s : Q) :
  best_match scorer corpus query = Some (a, s) ->
  is_blank query = false /\ FUZZY_THRESHOLD <= s /\
  exists i qa, selected scorer query corpus i qa s /\ a = QA.answer qa.
Proof.
  unfold best_match, accept.
  destruct (is_blank query); [discriminate|].
  destruct (process.extractOne _ _ _) as [[[m s'] i]|] eqn:Hex; [|discriminate].
  destruct (Qle_bool FUZZY_THRESHOLD s') eqn:Hthr; [|discriminate].
  destruct (extractOne_selected query m s' i Hex) as (qa & Hsel & Hq & Hans).
  rewrite Hans. intros [= <- <-].
  apply Qle_bool_iff in Hthr. eauto 6.
Qed.

Lemma best_match_accepts (query : str) (qa : QA.entry) :
  is_blank query = false -> In qa corpus ->
  FUZZY_THRESHOLD <= scorer query (QA.question qa) ->
  exists a s, best_match scorer corpus query = Some (a, s).
Proof.
  intros Hnb Hin Hthr. unfold best_match, accept. rewrite Hnb.
  destruct (extractOne_nonempty query) as (m & s & i & Hex).
  { intros ->. destruct Hin. }
  rewrite Hex.
  destruct (extractOne_selected query m s i Hex) as (qa' & Hsel & Hq & Hans).
  rewrite Hans.
  assert (Hs : FUZZY_THRESHOLD <= s).
  { destruct Hsel as (_ & _ & Hmax & _).
    eapply Qle_trans; [exact Hthr | apply Hmax, Hin]. }
  apply Qle_bool_iff in Hs. rewrite Hs. eauto.
Qed.

End MatcherSpec.

Lemma threshold_best_score (scorer : str -> str -> Q) (corpus : list QA.entry)
    (query : str) :
  FUZZY_THRESHOLD <= best_score scorer query corpus <->
  exists qa, In qa corpus /\ FUZZY_THRESHOLD <= scorer query (QA.question qa).
Proof.
  unfold best_score. induction corpus as [|e corpus IH]; simpl.
  - split; [intros H; exfalso; apply H; reflexivity | intros (qa & [] & _)].
  - rewrite Q.max_le_iff, IH. split.
    + intros [H | (qa & Hin & H)]; eauto.
    + intros (qa & [<- | Hin] & H); eauto.
Qed.

Lemma best_score_upper (scorer : str -> str -> Q) (query : str)
    (corpus : list QA.entry) (s : Q) :
  0 <= s ->
  (forall qa, In qa corpus -> scorer query (QA.question qa) <= s) ->
  best_score scorer query corpus <= s.
Proof.
  intros Hs. unfold best_score.
  induction corpus as [|e corpus IH]; simpl; intros Hall; [exact Hs|].
  apply Q.max_lub; [apply Hall; left; reflexivity|].
  apply IH. intros qa Hin. apply Hall. right. exact Hin.
Qed.

Lemma best_score_lower (scorer : str -> str -> Q) (query : str)
    (corpus : list QA.entry) (qa : QA.entry) :
  In qa corpus ->
  scorer query (QA.question qa) <= best_score scorer query corpus.
Proof.
  unfold best_score. induction corpus as [|e corpus IH]; simpl; [intros []|].
  intros [<- | Hin].
  - apply Q.le_max_l.
  - eapply Qle_trans; [apply IH, Hin | apply Q.le_max_r].
Qed.

Lemma selected_best_score (scorer : str -> str -> Q) (query : str)
    (corpus : list QA.entry) (i : nat) (qa : QA.entry) (s : Q) :
  (forall a b, 0 <= scorer a b <= 100) ->
  selected scorer query corpus i qa s ->
  s == best_score scorer query corpus.
Proof.
  intros Hrange (Hnth & Hs & Hmax & _). apply Qle_antisym.
  - rewrite Hs. apply best_score_lower. eapply nth_error_In; eassumption.
  - apply best_score_upper; [|exact Hmax]. rewrite Hs. apply Hrange.
Qed.

(* ===================================================================== *)
(** ** Facts about the effects *)
(* ===================================================================== *)

Section RunFacts.

Variable World : Type.
Variable service : World -> request -> reply * World.

Lemma run_try_except {A : Type} (body : eff A) (h : exception -> A) (w : World) :
  run service (try_except body (fun e => Ret (h e))) w =
  let '(out, w1, calls) := run service body w in
  (Returns match out with Returns a => a | Raises e => h e end, w1, calls).
Proof.
  revert w. induction body as [a | e | req k IH]; intros w; simpl;
    try reflexivity.
  destruct (service w req) as [r w1]. rewrite IH.
  destruct (run service (k r) w1) as [[out w2] calls]. reflexivity.
Qed.

Lemma run_bind_ret {A B : Type} (m : eff A) (f : A -> B) (w : World) :
  run service (a <- m ;; Ret (f a)) w =
  let '(out, w1, calls) := run service m w in
  (match out with Returns a => Returns (f a) | Raises e => Raises e end,
   w1, calls).
Proof.
  revert w. induction m as [a | e | req k IH]; intros w; simpl;
    try reflexivity.
  destruct (service w req) as [r w1]. rewrite IH.
  destruct (run service (k r) w1) as [[out w2] calls]. reflexivity.
Qed.

Lemma run_request_completion (q key : str) (w : World) :
  run service (request_completion q key) w =
  let '(r, w1) := service w (fallback_request q key) in
  (match r with
   | Completed response =>
       match choices response with
       | content :: _ => Returns content
       | [] => Raises {| exc_kind := IndexError;
                         exc_str := py "list index out of range" |}
       end
   | Failed e => Raises e
   end, w1, [fallback_request q key]).
Proof.
  unfold request_completion, chat_completions_create, first_choice. simpl.
  destruct (service w (fallback_request q key)) as [[response | e] w1]; simpl;
    [destruct (choices response)|]; reflexivity.
Qed.

Lemma run_get_openai_response (q key : str) (w : World) :
  run service (get_openai_response q key) w =
  let '(r, w1) := service w (fallback_request q key) in
  (Returns (fallback_text r), w1, [fallback_request q key]).
Proof.
  unfold get_openai_response.
  rewrite run_try_except, run_request_completion.
  destruct (service w (fallback_request q key)) as [[response | e] w1]; simpl;
    [destruct (choices response)|]; reflexivity.
Qed.

Lemma run_accepted (q key a : str) (s : Q) (w : World) :
  find_best_match q = Some (a, s) ->
  run service (get_agent_response q key) w =
  (Returns {| answer := Some a; source := predefined_source s |}, w, []).
Proof.
  intros H. unfold get_agent_response. rewrite H. reflexivity.
Qed.

Lemma run_rejected (q key : str) (w : World) :
  find_best_match q = None ->
  run service (get_agent_response q key) w =
  let '(r, w1) := service w (fallback_request q key) in
  (Returns {| answer := fallback_text r; source := py "OpenAI" |},
   w1, [fallback_request q key]).
Proof.
  intros H. unfold get_agent_response. rewrite H.
  rewrite run_bind_ret, run_get_openai_response.
  destruct (service w (fallback_request q key)) as [r w1]. reflexivity.
Qed.

End RunFacts.

(** What is known of an accepted query, for the program's own scorer and
    corpus. *)
Lemma find_best_match_Some (q a : str) (s : Q) :
  find_best_match q = Some (a, s) ->
  is_blank q = false /\ FUZZY_THRESHOLD <= s /\
  exists i qa,
    selected fuzz.token_set_ratio q PREDEFINED_QA i qa s /\ a = QA.answer qa.
Proof.
  apply best_match_Some. exact token_set_ratio_range.
Qed.

Lemma format_0f_nonneg (s : Q) :
  0 <= s -> format_0f s = digits (round_half_even s).
Proof.
  intros H. unfold format_0f.
  destruct (process.Qlt_bool s 0) eqn:E; [|reflexivity].
  apply Qlt_bool_iff in E. exfalso. exact (Qlt_not_le _ _ E H).
Qed.

Lemma round_half_even_bounds (lo hi : Z) (s : Q) :
  inject_Z lo <= s -> s <= inject_Z hi ->
  (lo <= round_half_even s <= hi)%Z.
Proof.
  intros Hlo Hhi.
  assert (Hf1 : (lo <= Qfloor s)%Z).
  { rewrite <- (Qfloor_Z lo). apply Qfloor_resp_le, Hlo. }
  assert (Hf2 : (Qfloor s <= hi)%Z).
  { rewrite <- (Qfloor_Z hi). apply Qfloor_resp_le, Hhi. }
  pose proof (Qfloor_le s) as Hfs.
  unfold round_half_even.
  destruct (Z.eq_dec (Qfloor s) hi) as [Heq | Hne].
  - rewrite <- Heq in Hhi.
    destruct (Qcompare (s - inject_Z (Qfloor s)) (1 # 2)) eqn:E.
    + apply Qeq_alt in E. revert Hfs Hhi E.
      generalize (inject_Z (Qfloor s)). intros f Hfs Hhi E. lra.
    + lia.
    + apply Qgt_alt in E. revert Hfs Hhi E.
      generalize (inject_Z (Qfloor s)). intros f Hfs Hhi E. lra.
  - destruct (Qcompare _ _); [destruct (Z.even _)| |]; lia.
Qed.

(** [round_half_even s] is an integer nearest to [s], and the even one of
    the two when [s] lies half-way between them. *)
Lemma round_half_even_nearest (s : Q) :
  inject_Z (round_half_even s) - (1 # 2) <= s
    <= inject_Z (round_half_even s) + (1 # 2) /\
  (s == inject_Z (round_half_even s) - (1 # 2) \/
   s == inject_Z (round_half_even s) + (1 # 2) ->
   Z.even (round_half_even s) = true).
Proof.
  pose proof (Qfloor_le s) as Hlo. pose proof (Qlt_floor s) as Hhi.
  unfold round_half_even.
  rewrite inject_Z_plus in Hhi. change (inject_Z 1) with 1 in Hhi.
  destruct (Qcompare (s - inject_Z (Qfloor s)) (1 # 2)) eqn:E.
  - apply Qeq_alt in E.
    destruct (Z.even (Qfloor s)) eqn:Ev.
    + split; [|intros _; exact Ev].
      revert Hlo Hhi E. generalize (inject_Z (Qfloor s)). intros f Hlo Hhi E.
      lra.
    + split.
      * rewrite inject_Z_plus. change (inject_Z 1) with 1.
        revert Hlo Hhi E. generalize (inject_Z (Qfloor s)).
        intros f Hlo Hhi E. lra.
      * intros _. rewrite Z.add_1_r, Z.even_succ, <- Z.negb_even, Ev.
        reflexivity.
  - apply Qlt_alt in E.
    revert Hlo Hhi E. generalize (inject_Z (Qfloor s)). intros f Hlo Hhi E.
    split; [lra | intros [H | H]; lra].
  - apply Qgt_alt in E. rewrite inject_Z_plus. change (inject_Z 1) with 1.
    revert Hlo Hhi E. generalize (inject_Z (Qfloor s)). intros f Hlo Hhi E.
    split; [lra | intros [H | H]; lra].
Qed.

(** The numerals [digits] writes for the integers from 70 to 100. *)
Lemma digits_decimal (n : Z) :
  (70 <= n <= 100)%Z ->
  decimal_value (digits n) = Some n /\ hd 0%N (digits n) <> 48%N.
Proof.
  intros Hn.
  assert (Hk : exists k, n = (70 + Z.of_nat k)%Z /\ (k <= 30)%nat).
  { exists (Z.to_nat (n - 70)). lia. }
  destruct Hk as (k & -> & Hk).
  do 31 (destruct k as [|k];
         [vm_compute; split; [reflexivity | discriminate]|]).
  lia.
Qed.

(* ===================================================================== *)
(** ** Properties of the resolution pipeline *)
(* ===================================================================== *)

(** C1.  A query that is exactly the question text of a corpus entry is
    matched with score 100: [find_best_match] returns that entry's answer
    with score 100, and [get_agent_response] returns, without calling the
    service, that answer with the source ["predefined (match: 100%)"]. *)
Theorem exact_question_is_answered (qa : QA.entry) (key : str) :
  In qa PREDEFINED_QA ->
  find_best_match (QA.question qa) = Some (QA.answer qa, 100) /\
  get_agent_response (QA.question qa) key =
    Ret {| answer := Some (QA.answer qa);
           source := py "predefined (match: 100%)" |}.
Proof.
  intros [<- | [<- | [<- | [<- | [<- | []]]]]];
    split; vm_compute; reflexivity.
Qed.

Lemma exact_question_is_answered_witness :
  find_best_match (QA.question qa_PHIL) = Some (QA.answer qa_PHIL, 100) /\
  get_agent_response (QA.question qa_PHIL) (py "sk-test") =
    Ret {| answer := Some (QA.answer qa_PHIL);
           source := py "predefined (match: 100%)" |}.
Proof.
  apply (exact_question_is_answered qa_PHIL (py "sk-test")).
  simpl. right. right. left. reflexivity.
Defined.

(** C2.  The matcher accepts a query exactly when the best similarity
    score over the corpus questions is at least [FUZZY_THRESHOLD] (70), and
    the score it returns is then that best score.  So a query whose best
    score is exactly 70 is accepted; a query whose best score is below 70
    gets [None], and [get_agent_response] then answers through the service
    with the source ["OpenAI"]. *)
Theorem threshold_acceptance (q : str) :
  ((exists a s, find_best_match q = Some (a, s)) <->
   FUZZY_THRESHOLD <= best_score fuzz.token_set_ratio q PREDEFINED_QA) /\
  (forall a s, find_best_match q = Some (a, s) ->
     s == best_score fuzz.token_set_ratio q PREDEFINED_QA) /\
  (best_score fuzz.token_set_ratio q PREDEFINED_QA == FUZZY_THRESHOLD ->
     exists a s, find_best_match q = Some (a, s)) /\
  (best_score fuzz.token_set_ratio q PREDEFINED_QA < FUZZY_THRESHOLD ->
     find_best_match q = None /\
     forall (World : Type) (service : World -> request -> reply * World)
            (w : World) (key : str),
     exists a w',
       run service (get_agent_response q key) w =
       (Returns {| answer := a; source := py "OpenAI" |}, w',
        [fallback_request q key])).
Proof.
  assert (Hiff : (exists a s, find_best_match q = Some (a, s)) <->
                 FUZZY_THRESHOLD <=
                   best_score fuzz.token_set_ratio q PREDEFINED_QA).
  { rewrite threshold_best_score. split.
    - intros (a & s & H). apply find_best_match_Some in H.
      destruct H as (_ & Hthr & i & qa & (Hnth & Hs & _) & _).
      exists qa. split; [eapply nth_error_In; eassumption|].
      rewrite <- Hs. exact Hthr.
    - intros (qa & Hin & Hthr).
      apply (best_match_accepts _ token_set_ratio_range _ q qa); auto.
      destruct (is_blank q) eqn:Hb; [|reflexivity].
      apply is_blank_iff in Hb.
      exfalso. apply (Qlt_not_le _ _ (blank_scores_low q qa Hb Hin) Hthr). }
  split; [exact Hiff|]. split; [|split].
  - intros a s H. apply find_best_match_Some in H.
    destruct H as (_ & _ & i & qa & Hsel & _).
    exact (selected_best_score _ _ _ _ _ _ token_set_ratio_range Hsel).
  - intros Heq. apply Hiff. rewrite Heq. apply Qle_refl.
  - intros Hlt.
    assert (Hnone : find_best_match q = None).
    { destruct (find_best_match q) as [[a s]|] eqn:E; [|reflexivity].
      exfalso. apply (Qlt_not_le _ _ Hlt). apply Hiff. eauto. }
    split; [exact Hnone|]. intros World service w key.
    rewrite (run_rejected World service q key w Hnone).
    destruct (service w (fallback_request q key)) as [r w1]. eauto.
Qed.

Lemma threshold_acceptance_witness :
  exists a s, find_best_match (py "the do? today") = Some (a, s).
Proof.
  apply (proj1 (proj2 (proj2 (threshold_acceptance (py "the do? today"))))).
  vm_compute. reflexivity.
Defined.

(** The boundary, on the program's corpus: "the do? today" scores exactly
    70 against the first two questions and is accepted; with a sixth
    letter in the unmatched word the best score drops to 200/3 and the
    query is rejected. *)
Example at_threshold_accepted :
  best_score fuzz.token_set_ratio (py "the do? today") PREDEFINED_QA == 70 /\
  find_best_match (py "the do? today") = Some (QA.answer qa_EVA, 1400 # 20).
Proof. split; vm_compute; reflexivity. Qed.

Example below_threshold_rejected :
  best_score fuzz.token_set_ratio (py "the do? todays") PREDEFINED_QA
    == 200 # 3 /\
  find_best_match (py "the do? todays") = None.
Proof. split; vm_compute; reflexivity. Qed.

(** C3.  Whatever exception the [try] block of [get_openai_response]
    raises (a network error, a rejected credential, a timeout or a
    malformed response from the client, or the [IndexError] of an empty
    [choices] list), the function does not raise: it returns the apology
    followed by [str(e)], a non-empty string that ends with the error
    detail. *)
Theorem fallback_failure_is_apology
    (World : Type) (service : World -> request -> reply * World)
    (w w1 : World) (q key : str) (e : exception) (calls : list request) :
  run service (request_completion q key) w = (Raises e, w1, calls) ->
  run service (get_openai_response q key) w =
    (Returns (Some (apology ++ exc_str e)), w1, calls) /\
  apology ++ exc_str e <> [] /\
  skipn (length apology) (apology ++ exc_str e) = exc_str e.
Proof.
  intros Hraise. split; [|split].
  - unfold get_openai_response.
    rewrite (run_try_except World service (request_completion q key)), Hraise.
    reflexivity.
  - unfold apology. discriminate.
  - rewrite skipn_app, skipn_all, Nat.sub_diag. reflexivity.
Qed.

Lemma fallback_failure_is_apology_witness :
  run rejecting_service
    (get_openai_response (py "What's the weather today?") (py "sk-bad")) 0%nat =
    (Returns (Some (apology
                    ++ py "Error code: 401 - Incorrect API key provided")),
     1%nat, [fallback_request (py "What's the weather today?") (py "sk-bad")]) /\
  apology ++ py "Error code: 401 - Incorrect API key provided" <> [] /\
  skipn (length apology)
    (apology ++ py "Error code: 401 - Incorrect API key provided") =
  py "Error code: 401 - Incorrect API key provided".
Proof.
  apply (fallback_failure_is_apology nat rejecting_service 0%nat 1%nat
           (py "What's the weather today?") (py "sk-bad")
           {| exc_kind := AuthenticationError;
              exc_str := py "Error code: 401 - Incorrect API key provided" |}).
  reflexivity.
Defined.

(** The failures the client itself reports, and the malformed response
    with no choice in it, are such exceptions of the [try] block. *)
Example client_failure_raises
    (World : Type) (service : World -> request -> reply * World)
    (w w1 : World) (q key : str) (e : exception) :
  service w (fallback_request q key) = (Failed e, w1) ->
  run service (request_completion q key) w =
    (Raises e, w1, [fallback_request q key]).
Proof. intros H. rewrite run_request_completion, H. reflexivity. Qed.

Example empty_choices_raises
    (World : Type) (service : World -> request -> reply * World)
    (w w1 : World) (q key : str) :
  service w (fallback_request q key) = (Completed {| choices := [] |}, w1) ->
  run service (request_completion q key) w =
    (Raises {| exc_kind := IndexError;
               exc_str := py "list index out of range" |},
     w1, [fallback_request q key]).
Proof. intros H. rewrite run_request_completion, H. reflexivity. Qed.

(** C4.  [get_agent_response] does not always return an answer string.
    When the completion the service returns has a first choice without
    content, line 97 of [get_openai_response] (annotated [-> str])
    returns that [None] unchecked: for the rejected query "What's the
    weather today?" the record returned has [None] for answer, under the
    source ["OpenAI"].  No exception is raised. *)
Theorem null_content_answer_is_none :
  find_best_match (py "What's the weather today?") = None /\
  run silent_service
    (get_agent_response (py "What's the weather today?") (py "sk-test"))
    0%nat =
  (Returns {| answer := None; source := py "OpenAI" |}, 1%nat,
   [fallback_request (py "What's the weather today?") (py "sk-test")]).
Proof. split; vm_compute; reflexivity. Qed.

(** C5.  The [source] of the result is ["predefined (match: N%)"] when
    the matcher accepts, and ["OpenAI"] when it rejects; there is no
    third value.  [N] is the accepted score rounded: it is written as a
    decimal numeral without leading zero, the integer it denotes is
    within one half of the score, and where the score lies half-way
    between two integers it is the even one. *)
Theorem source_tag_shape
    (World : Type) (service : World -> request -> reply * World)
    (w : World) (q key : str) :
  exists (r : AgentResponse) (w' : World) (calls : list request),
    run service (get_agent_response q key) w = (Returns r, w', calls) /\
    match find_best_match q with
    | Some (_, score) =>
        exists (n : Z) (numeral : str),
          source r = py "predefined (match: " ++ numeral ++ py "%)" /\
          decimal_value numeral = Some n /\
          hd 0%N numeral <> 48%N /\
          inject_Z n - (1 # 2) <= score <= inject_Z n + (1 # 2) /\
          (score == inject_Z n - (1 # 2) \/ score == inject_Z n + (1 # 2) ->
           Z.even n = true)
    | None => source r = py "OpenAI"
    end.
Proof.
  destruct (find_best_match q) as [[a s]|] eqn:E.
  - rewrite (run_accepted World service q key a s w E).
    do 3 eexists. split; [reflexivity|]. simpl. unfold predefined_source.
    apply find_best_match_Some in E.
    destruct E as (_ & Hthr & i & qa & (_ & Hs & _) & _).
    assert (H100 : s <= 100) by (rewrite Hs; apply token_set_ratio_range).
    assert (H0 : 0 <= s) by (eapply Qle_trans; [|exact Hthr]; discriminate).
    pose proof (round_half_even_bounds 70 100 s Hthr H100) as Hn.
    destruct (digits_decimal (round_half_even s) Hn) as [Hdec Hhd].
    destruct (round_half_even_nearest s) as [Hnear Htie].
    exists (round_half_even s), (digits (round_half_even s)).
    rewrite (format_0f_nonneg s H0). auto.
  - rewrite (run_rejected World service q key w E).
    destruct (service w (fallback_request q key)) as [r w1].
    do 3 eexists. split; reflexivity.
Qed.

Lemma source_tag_shape_witness :
  exists (r : AgentResponse) (w' : nat) (calls : list request),
    run rejecting_service
      (get_agent_response (py "What does EVA do?") (py "sk-test")) 3%nat
      = (Returns r, w', calls) /\
    match find_best_match (py "What does EVA do?") with
    | Some (_, score) =>
        exists (n : Z) (numeral : str),
          source r = py "predefined (match: " ++ numeral ++ py "%)" /\
          decimal_value numeral = Some n /\
          hd 0%N numeral <> 48%N /\
          inject_Z n - (1 # 2) <= score <= inject_Z n + (1 # 2) /\
          (score == inject_Z n - (1 # 2) \/ score == inject_Z n + (1 # 2) ->
           Z.even n = true)
    | None => source r = py "OpenAI"
    end.
Proof.
  exact (source_tag_shape nat rejecting_service 3%nat
           (py "What does EVA do?") (py "sk-test")).
Defined.

(** C6.  For an empty or whitespace-only query the matcher returns [None]
    whatever the scorer and the corpus are (no score enters the result),
    and [get_agent_response] sends the blank query to the service: one
    request, and the source ["OpenAI"]. *)
Theorem blank_query_falls_back (q : str) :
  whitespace_only q = true ->
  (forall (scorer : str -> str -> Q) (corpus : list QA.entry),
     best_match scorer corpus q = None) /\
  find_best_match q = None /\
  forall (World : Type) (service : World -> request -> reply * World)
         (w : World) (key : str),
  exists a w',
    run service (get_agent_response q key) w =
    (Returns {| answer := a; source := py "OpenAI" |}, w',
     [fallback_request q key]).
Proof.
  intros Hq. apply is_blank_iff in Hq.
  assert (Hnone : forall scorer corpus, best_match scorer corpus q = None).
  { intros scorer corpus. unfold best_match. rewrite Hq. reflexivity. }
  split; [exact Hnone|]. split; [apply Hnone|].
  intros World service w key.
  rewrite (run_rejected World service q key w (Hnone _ _)).
  destruct (service w (fallback_request q key)) as [r w1]. eauto.
Qed.

Lemma blank_query_falls_back_witness :
  (forall (scorer : str -> str -> Q) (corpus : list QA.entry),
     best_match scorer corpus [32; 9; 10; 160]%N = None) /\
  find_best_match [32; 9; 10; 160]%N = None /\
  forall (World : Type) (service : World -> request -> reply * World)
         (w : World) (key : str),
  exists a w',
    run service (get_agent_response [32; 9; 10; 160]%N key) w =
    (Returns {| answer := a; source := py "OpenAI" |}, w',
     [fallback_request [32; 9; 10; 160]%N key]).
Proof.
  apply (blank_query_falls_back [32; 9; 10; 160]%N). reflexivity.
Defined.

(** C7.  For every query the matcher's result is decided by one corpus
    entry: the entry [extractOne] returns, whose score no corpus question
    exceeds and which every earlier entry of the corpus scores strictly
    below, that is, the first in corpus order of the entries that attain
    the best score.  Unless the query is blank, [find_best_match] returns
    that entry's answer with that score when the score reaches the
    threshold, and [None] when it does not. *)
Theorem first_best_entry_selected (q : str) :
  exists (i : nat) (qa : QA.entry) (s : Q),
    process.extractOne fuzz.token_set_ratio q (map QA.question PREDEFINED_QA)
      = Some (QA.question qa, s, i) /\
    nth_error PREDEFINED_QA i = Some qa /\
    s = fuzz.token_set_ratio q (QA.question qa) /\
    (forall qa', In qa' PREDEFINED_QA ->
       fuzz.token_set_ratio q (QA.question qa') <= s) /\
    (forall j qa', (j < i)%nat -> nth_error PREDEFINED_QA j = Some qa' ->
       fuzz.token_set_ratio q (QA.question qa') < s) /\
    find_best_match q =
      if whitespace_only q then None
      else if Qle_bool FUZZY_THRESHOLD s then Some (QA.answer qa, s)
      else None.
Proof.
  destruct (extractOne_nonempty _ token_set_ratio_range PREDEFINED_QA q)
    as (m & s & i & Hex); [discriminate|].
  destruct (extractOne_selected _ token_set_ratio_range _ q m s i Hex)
    as (qa & (Hnth & Hs & Hmax & Hfirst) & <- & Hans).
  exists i, qa, s. repeat split; auto.
  unfold find_best_match, best_match, accept.
  assert (Hblank : is_blank q = whitespace_only q).
  { pose proof (is_blank_iff q) as Hiff.
    destruct (is_blank q), (whitespace_only q);
      try reflexivity; [symmetry|]; apply Hiff; reflexivity. }
  rewrite Hblank, Hex, Hans.
  destruct (whitespace_only q); [reflexivity|].
  destruct (Qle_bool FUZZY_THRESHOLD s); reflexivity.
Qed.

Lemma first_best_entry_selected_witness :
  exists (qa : QA.entry),
    nth_error PREDEFINED_QA 0 = Some qa /\
    find_best_match (py "the do? today") =
      Some (QA.answer qa,
            fuzz.token_set_ratio (py "the do? today") (QA.question qa)) /\
    fuzz.token_set_ratio (py "the do? today") (QA.question qa_CAM)
      <= fuzz.token_set_ratio (py "the do? today") (QA.question qa).
Proof.
  destruct (first_best_entry_selected (py "the do? today"))
    as (i & qa & s & Hex & Hnth & Hs & Hmax & Hfirst & Hfbm).
  assert (Hi : i = 0%nat).
  { revert Hex. vm_compute. intros [= _ _ <-]. reflexivity. }
  subst i. exists qa. split; [exact Hnth|].
  injection Hnth as <-. split.
  - rewrite Hfbm, Hs. vm_compute. reflexivity.
  - rewrite <- Hs. apply Hmax. simpl. right. left. reflexivity.
Defined.

(** Two ties on the program's corpus.  "the do? today" scores 70 against
    both the EVA and the CAM question, and "What does the agent do?"
    scores 100 against both; each time the EVA entry, first in the corpus,
    is the one answered. *)
Example tie_resolved_to_first :
  fuzz.token_set_ratio (py "the do? today") (QA.question qa_EVA) == 70 /\
  fuzz.token_set_ratio (py "the do? today") (QA.question qa_CAM) == 70 /\
  option_map fst (find_best_match (py "the do? today"))
    = Some (QA.answer qa_EVA) /\
  fuzz.token_set_ratio (py "What does the agent do?") (QA.question qa_EVA)
    == 100 /\
  fuzz.token_set_ratio (py "What does the agent do?") (QA.question qa_CAM)
    == 100 /\
  find_best_match (py "What does the agent do?")
    = Some (QA.answer qa_EVA, 100).
Proof. repeat split; vm_compute; reflexivity. Qed.

(** C8.  The service is called only on the strength of the matcher's
    result.  If the matcher accepts, a run of [get_agent_response] sends
    no request and leaves the service untouched, and its result is the
    matched answer and score: neither the credential nor the service
    enters it.  If the matcher rejects, the run sends exactly one
    request. *)
Theorem matcher_before_fallback
    (World : Type) (service : World -> request -> reply * World)
    (w w' : World) (q key : str) (out : outcome AgentResponse)
    (calls : list request) :
  run service (get_agent_response q key) w = (out, w', calls) ->
  match find_best_match q with
  | Some (a, score) =>
      calls = [] /\ w' = w /\
      out = Returns {| answer := Some a; source := predefined_source score |} /\
      forall key', get_agent_response q key' =
                   Ret {| answer := Some a; source := predefined_source score |}
  | None => calls = [fallback_request q key]
  end.
Proof.
  intros Hrun. destruct (find_best_match q) as [[a s]|] eqn:E.
  - rewrite (run_accepted World service q key a s w E) in Hrun.
    injection Hrun as <- <- <-. repeat split.
    intros key'. unfold get_agent_response. rewrite E. reflexivity.
  - rewrite (run_rejected World service q key w E) in Hrun.
    destruct (service w (fallback_request q key)) as [r w1].
    injection Hrun as _ _ <-. reflexivity.
Qed.

Lemma matcher_before_fallback_witness :
  match find_best_match (py "What does EVA do?") with
  | Some (a, score) =>
      @nil request = [] /\ 7%nat = 7%nat /\
      Returns {| answer := Some (QA.answer qa_EVA);
                 source := py "predefined (match: 87%)" |} =
      Returns {| answer := Some a; source := predefined_source score |} /\
      forall key', get_agent_response (py "What does EVA do?") key' =
                   Ret {| answer := Some a; source := predefined_source score |}
  | None => [] = [fallback_request (py "What does EVA do?") (py "sk-test")]
  end.
Proof.
  apply (matcher_before_fallback nat rejecting_service 7%nat 7%nat
           (py "What does EVA do?") (py "sk-test")).
  vm_compute. reflexivity.
Defined.

(** C10.  A pair [(answer, score)] returned by [find_best_match] has
    [score >= FUZZY_THRESHOLD], and [answer] is the answer of the first
    corpus entry whose question equals the question [extractOne] returned.
    And the lookup after the threshold test can fall through: were
    [extractOne] to return a question no corpus entry carries, the result
    would be [None] even with a score at or above the threshold. *)
Theorem find_best_match_result :
  (forall (q a : str) (s : Q),
     find_best_match q = Some (a, s) ->
     FUZZY_THRESHOLD <= s /\
     exists (matched_question : str) (i : nat) (qa : QA.entry),
       process.extractOne fuzz.token_set_ratio q
         (map QA.question PREDEFINED_QA) = Some (matched_question, s, i) /\
       first_entry_for PREDEFINED_QA matched_question qa /\
       a = QA.answer qa) /\
  (forall (corpus : list QA.entry) (matched_question : str) (s : Q) (i : nat),
     FUZZY_THRESHOLD <= s ->
     Forall (fun qa => QA.question qa <> matched_question) corpus ->
     accept corpus (Some (matched_question, s, i)) = None).
Proof.
  split.
  - intros q a s. unfold find_best_match, best_match, accept.
    destruct (is_blank q); [discriminate|].
    destruct (process.extractOne _ _ _) as [[[m s'] i]|]; [|discriminate].
    destruct (Qle_bool FUZZY_THRESHOLD s') eqn:Hthr; [|discriminate].
    destruct (answer_for PREDEFINED_QA m) as [a'|] eqn:Hans; [|discriminate].
    intros [= <- <-]. apply Qle_bool_iff in Hthr.
    apply answer_for_Some in Hans. destruct Hans as (qa & Hfirst & Ha).
    split; [exact Hthr|]. exists m, i, qa. auto.
  - intros corpus m s i Hthr Habsent. unfold accept.
    apply answer_for_None in Habsent. rewrite Habsent.
    destruct (Qle_bool FUZZY_THRESHOLD s); reflexivity.
Qed.

Lemma find_best_match_result_witness :
  (FUZZY_THRESHOLD <= 2600 # 30 /\
   exists (matched_question : str) (i : nat) (qa : QA.entry),
     process.extractOne fuzz.token_set_ratio (py "What does EVA do?")
       (map QA.question PREDEFINED_QA) = Some (matched_question, 2600 # 30, i) /\
     first_entry_for PREDEFINED_QA matched_question qa /\
     QA.answer qa_EVA = QA.answer qa) /\
  accept [qa_CAM; qa_PHIL] (Some (QA.question qa_EVA, 100, 0%nat)) = None.
Proof.
  split.
  - apply (proj1 find_best_match_result (py "What does EVA do?")).
    vm_compute. reflexivity.
  - apply (proj2 find_best_match_result).
    + discriminate.
    + repeat constructor; discriminate.
Defined.

(* ===================================================================== *)
(** ** Facts about the chat page *)
(* ===================================================================== *)

Lemma strip_whitespace_only (q : str) :
  truthy q = true -> negb (truthy (strip q)) = whitespace_only q.
Proof.
  intros Hq. pose proof (is_blank_iff q) as Hiff.
  unfold is_blank in Hiff. rewrite Hq in Hiff. simpl in Hiff.
  destruct (negb (truthy (strip q))), (whitespace_only q);
    try reflexivity; [symmetry|]; apply Hiff; reflexivity.
Qed.

Lemma predefined_source_nonempty (s : Q) : predefined_source s <> [].
Proof. unfold predefined_source. discriminate. Qed.

Section PageFacts.

Variable World : Type.
Variable service : World -> request -> reply * World.

(** A run of [get_agent_response] returns a record whose source is not
    empty, and sends either nothing or the one fallback request. *)
Lemma run_get_agent_response (q key : str) (w : World) :
  exists r w' calls,
    run service (get_agent_response q key) w = (Returns r, w', calls) /\
    source r <> [] /\
    ((calls = [] /\ w' = w) \/
     (find_best_match q = None /\ calls = [fallback_request q key])).
Proof.
  destruct (find_best_match q) as [[a s]|] eqn:E.
  - rewrite (run_accepted World service q key a s w E).
    do 3 eexists. split; [reflexivity|]. split; [|left; auto].
    apply predefined_source_nonempty.
  - rewrite (run_rejected World service q key w E).
    destruct (service w (fallback_request q key)) as [r w1].
    do 3 eexists. split; [reflexivity|]. split; [discriminate|right; auto].
Qed.

(** One run of [main], case by case. *)
Lemma run_main (input : run_input) (session : option (list Message.t))
    (w : World) :
  run service (main input session) w =
  match OPENAI_API_KEY input with
  | None => (Returns (key_missing_page session), w, [])
  | Some key =>
      if usable_key key then
        match chat_input input with
        | None =>
            (Returns (draw_sidebar input (opening session)
                        (replay (opening session))), w, [])
        | Some q =>
            if truthy q then
              if whitespace_only q
              then (Returns (refused_page session), w, [])
              else
                let '(out, w', calls) :=
                  run service (get_agent_response q key) w in
                (match out with
                 | Returns r => Returns (answered_page input session q r)
                 | Raises e => Raises e
                 end, w', calls)
            else
              (Returns (draw_sidebar input (opening session)
                          (replay (opening session))), w, [])
        end
      else (Returns (key_missing_page session), w, [])
  end.
Proof.
  unfold main, usable_key.
  destruct (OPENAI_API_KEY input) as [key|]; [|reflexivity].
  destruct (truthy key); [|reflexivity].
  destruct (str_eqb key placeholder_key); [reflexivity|]. cbn [negb orb andb].
  destruct (chat_input input) as [q|]; [|reflexivity].
  destruct (truthy q) eqn:Hq; [|reflexivity].
  rewrite (strip_whitespace_only q Hq).
  destruct (whitespace_only q); [reflexivity|].
  rewrite run_bind_ret.
  destruct (run service (get_agent_response q key) w) as [[[r|e] w'] calls];
    [|reflexivity].
  unfold answered_page, live_exchange, replay, opening.
  rewrite <- !app_assoc. reflexivity.
Qed.

End PageFacts.

Section ActionFacts.

Variable World : Type.
Variable service : World -> request -> reply * World.

Lemma run_bind {A B : Type} (m : eff A) (f : A -> eff B) (w : World) :
  run service (a <- m ;; f a) w =
  let '(out, w1, calls1) := run service m w in
  match out with
  | Returns a =>
      let '(out2, w2, calls2) := run service (f a) w1 in
      (out2, w2, calls1 ++ calls2)
  | Raises e => (Raises e, w1, calls1)
  end.
Proof.
  revert w. induction m as [a | e | req k IH]; intros w; simpl.
  - destruct (run service (f a) w) as [[out w2] calls2]. reflexivity.
  - reflexivity.
  - destruct (service w req) as [r w1]. rewrite IH.
    destruct (run service (k r) w1) as [[[a|e] w2] calls]; [|reflexivity].
    destruct (run service (f a) w2) as [[out2 w3] calls2]. reflexivity.
Qed.

(** The second run of a user action, when the first one reached the
    sidebar. *)
Lemma run_settle (input : run_input) (key : str)
    (messages : list Message.t) (shown : list st.element) (w : World) :
  OPENAI_API_KEY input = Some key -> usable_key key = true ->
  run service
    (match ended (draw_sidebar input messages shown) with
     | rerun => main (again input)
                  (session_state (draw_sidebar input messages shown))
     | _ => Ret (draw_sidebar input messages shown)
     end) w =
  (Returns (settle input (draw_sidebar input messages shown)), w, []).
Proof.
  intros Hkey Husable. unfold settle, draw_sidebar.
  destruct (clear_clicked input); [|reflexivity].
  cbn [ended session_state]. rewrite run_main. cbn [again OPENAI_API_KEY].
  rewrite Hkey, Husable. reflexivity.
Qed.

(** One user action, case by case. *)
Lemma run_user_action (input : run_input) (session : option (list Message.t))
    (w : World) :
  run service (user_action input session) w =
  match OPENAI_API_KEY input with
  | None => (Returns (key_missing_page session), w, [])
  | Some key =>
      if usable_key key then
        match chat_input input with
        | None =>
            (Returns (settle input
                        (draw_sidebar input (opening session)
                           (replay (opening session)))), w, [])
        | Some q =>
            if truthy q then
              if whitespace_only q
              then (Returns (refused_page session), w, [])
              else
                let '(out, w', calls) :=
                  run service (get_agent_response q key) w in
                (match out with
                 | Returns r =>
                     Returns (settle input (answered_page input session q r))
                 | Raises e => Raises e
                 end, w', calls)
            else
              (Returns (settle input
                          (draw_sidebar input (opening session)
                             (replay (opening session)))), w, [])
        end
      else (Returns (key_missing_page session), w, [])
  end.
Proof.
  unfold user_action. rewrite run_bind, run_main.
  destruct (OPENAI_API_KEY input) as [key|] eqn:Hkey; [|reflexivity].
  destruct (usable_key key) eqn:Husable; [|reflexivity].
  destruct (chat_input input) as [q|].
  - destruct (truthy q).
    + destruct (whitespace_only q); [reflexivity|].
      destruct (run service (get_agent_response q key) w)
        as [[[r|e] w'] calls]; [|reflexivity].
      unfold answered_page.
      rewrite (run_settle input key _ _ w' Hkey Husable), app_nil_r.
      reflexivity.
    + rewrite (run_settle input key _ _ w Hkey Husable). reflexivity.
  - rewrite (run_settle input key _ _ w Hkey Husable). reflexivity.
Qed.

End ActionFacts.

(* ===================================================================== *)
(** ** Properties of the chat page *)
(* ===================================================================== *)

(** X1.  A user action on the chat page never ends in an exception:
    whatever the environment, the submitted text, the click, the session
    state and the behaviour of the service, the run of [main] (and the
    run [st.rerun()] starts) returns a page. *)
Theorem chat_page_never_raises
    (World : Type) (service : World -> request -> reply * World)
    (w : World) (input : run_input) (session : option (list Message.t)) :
  (exists p w' calls,
     run service (main input session) w = (Returns p, w', calls)) /\
  (exists p w' calls,
     run service (user_action input session) w = (Returns p, w', calls)).
Proof.
  rewrite run_main, run_user_action.
  destruct (OPENAI_API_KEY input) as [key|]; [|split; eauto].
  destruct (usable_key key); [|split; eauto].
  destruct (chat_input input) as [q|]; [|split; eauto].
  destruct (truthy q); [|split; eauto].
  destruct (whitespace_only q); [split; eauto|].
  destruct (run_get_agent_response World service q key w)
    as (r & w' & calls & Hrun & _).
  rewrite Hrun. split; eauto.
Qed.

(** X2.  The page sends at most one request per user action, and only
    for a real question: the request carries the submitted text, which is
    not whitespace-only and which the matcher rejected, and a key that is
    neither empty nor the placeholder. *)
Theorem requests_are_real_questions
    (World : Type) (service : World -> request -> reply * World)
    (w w' : World) (input : run_input) (session : option (list Message.t))
    (out : outcome page) (calls : list request) :
  run service (user_action input session) w = (out, w', calls) ->
  calls = [] \/
  exists q key,
    calls = [fallback_request q key] /\
    chat_input input = Some q /\ whitespace_only q = false /\
    find_best_match q = None /\
    OPENAI_API_KEY input = Some key /\ usable_key key = true.
Proof.
  rewrite run_user_action.
  destruct (OPENAI_API_KEY input) as [key|] eqn:Hkey;
    [|intros [= _ _ <-]; left; reflexivity].
  destruct (usable_key key) eqn:Husable;
    [|intros [= _ _ <-]; left; reflexivity].
  destruct (chat_input input) as [q|] eqn:Hq;
    [|intros [= _ _ <-]; left; reflexivity].
  destruct (truthy q); [|intros [= _ _ <-]; left; reflexivity].
  destruct (whitespace_only q) eqn:Hws;
    [intros [= _ _ <-]; left; reflexivity|].
  destruct (run_get_agent_response World service q key w)
    as (r & w1 & calls1 & Hrun & _ & Hcalls).
  rewrite Hrun. intros [= _ _ <-].
  destruct Hcalls as [[-> _] | [Hnone ->]]; [left; reflexivity|].
  right. exists q, key. auto 7.
Qed.

Lemma requests_are_real_questions_witness :
  [fallback_request (py "What's the weather today?") (py "sk-test")] = [] \/
  exists q key,
    [fallback_request (py "What's the weather today?") (py "sk-test")]
      = [fallback_request q key] /\
    chat_input (asks (py "What's the weather today?")) = Some q /\
    whitespace_only q = false /\
    find_best_match q = None /\
    OPENAI_API_KEY (asks (py "What's the weather today?")) = Some key /\
    usable_key key = true.
Proof.
  eapply (requests_are_real_questions nat sunny_service 0%nat 1%nat
            (asks (py "What's the weather today?")) None).
  vm_compute. reflexivity.
Defined.

(** X3.  Without a usable key (the variable is unset, empty, or still
    the placeholder) a run shows the error and the hint and stops there:
    the session state is left as it was, not even the greeting is
    stored, and no request is sent, whatever was typed or clicked. *)
Theorem missing_key_stops
    (World : Type) (service : World -> request -> reply * World)
    (w : World) (input : run_input) (session : option (list Message.t)) :
  match OPENAI_API_KEY input with
  | None => True
  | Some key => key = [] \/ key = placeholder_key
  end ->
  run service (user_action input session) w =
    (Returns {| session_state := session;
                drawn := page_head ++ key_missing_notice;
                ended := stopped |}, w, []).
Proof.
  intros Hkey. rewrite run_user_action.
  destruct (OPENAI_API_KEY input) as [key|]; [|reflexivity].
  destruct Hkey as [-> | ->]; reflexivity.
Qed.

Lemma missing_key_stops_witness :
  run rejecting_service
    (user_action {| OPENAI_API_KEY := Some placeholder_key;
                    chat_input := Some (py "What does EVA do?");
                    clear_clicked := true |} None) 0%nat =
    (Returns {| session_state := None;
                drawn := page_head ++ key_missing_notice;
                ended := stopped |}, 0%nat, []).
Proof.
  apply (missing_key_stops nat rejecting_service 0%nat
           {| OPENAI_API_KEY := Some placeholder_key;
              chat_input := Some (py "What does EVA do?");
              clear_clicked := true |} None).
  simpl. right. reflexivity.
Defined.

(** X4.  With a usable key and no click on the clear button, a run only
    appends to the history.  Either nothing is added (nothing was
    submitted, or an empty or whitespace-only text), no request is sent
    and the service is left as it was; or the submitted question is
    answered by [get_agent_response] and exactly two messages are added:
    the question as a user message, then the answer with its source as
    an assistant message. *)
Theorem history_is_append_only
    (World : Type) (service : World -> request -> reply * World)
    (w w' : World) (input : run_input) (session : option (list Message.t))
    (key : str) (p : page) (calls : list request) :
  OPENAI_API_KEY input = Some key -> usable_key key = true ->
  clear_clicked input = false ->
  run service (main input session) w = (Returns p, w', calls) ->
  (session_state p = Some (opening session) /\ calls = [] /\ w' = w) \/
  (exists q r,
     chat_input input = Some q /\ whitespace_only q = false /\
     run service (get_agent_response q key) w = (Returns r, w', calls) /\
     session_state p =
       Some (opening session
             ++ [ {| Message.role := py "user";
                     Message.content := Some q;
                     Message.source := None |};
                  {| Message.role := py "assistant";
                     Message.content := answer r;
                     Message.source := Some (source r) |} ])).
Proof.
  intros Hkey Husable Hclear. rewrite run_main, Hkey, Husable.
  assert (Hidle : session_state (draw_sidebar input (opening session)
                                   (replay (opening session)))
                  = Some (opening session)).
  { unfold draw_sidebar. rewrite Hclear. reflexivity. }
  destruct (chat_input input) as [q|];
    [|intros [= <- <- <-]; left; auto].
  destruct (truthy q); [|intros [= <- <- <-]; left; auto].
  destruct (whitespace_only q) eqn:Hws;
    [intros [= <- <- <-]; left; auto|].
  destruct (run_get_agent_response World service q key w)
    as (r & w1 & calls1 & Hrun & _).
  rewrite Hrun. intros [= <- <- <-]. right. exists q, r.
  repeat split; auto.
  unfold answered_page, draw_sidebar. rewrite Hclear. reflexivity.
Qed.

Lemma history_is_append_only_witness :
  (Some [welcome_message;
         user_message (py "What's the weather today?");
         {| Message.role := py "assistant";
            Message.content := Some (py "I cannot check the weather.");
            Message.source := Some (py "OpenAI") |}]
   = Some (opening None) /\
   [fallback_request (py "What's the weather today?") (py "sk-test")] = [] /\
   1%nat = 0%nat) \/
  (exists q r,
     chat_input (asks (py "What's the weather today?")) = Some q /\
     whitespace_only q = false /\
     run sunny_service (get_agent_response q (py "sk-test")) 0%nat =
       (Returns r, 1%nat,
        [fallback_request (py "What's the weather today?") (py "sk-test")]) /\
     Some [welcome_message;
           user_message (py "What's the weather today?");
           {| Message.role := py "assistant";
              Message.content := Some (py "I cannot check the weather.");
              Message.source := Some (py "OpenAI") |}] =
       Some (opening None
             ++ [ {| Message.role := py "user";
                     Message.content := Some q;
                     Message.source := None |};
                  {| Message.role := py "assistant";
                     Message.content := answer r;
                     Message.source := Some (source r) |} ])).
Proof.
  pose proof (history_is_append_only nat sunny_service 0%nat 1%nat
                (asks (py "What's the weather today?")) None (py "sk-test")
                (answered_page (asks (py "What's the weather today?")) None
                   (py "What's the weather today?")
                   {| answer := Some (py "I cannot check the weather.");
                      source := py "OpenAI" |})
                [fallback_request (py "What's the weather today?")
                   (py "sk-test")]) as H.
  apply H; vm_compute; reflexivity.
Defined.

Lemma exchanges_app (l1 l2 : list Message.t) :
  exchanges l1 -> exchanges l2 -> exchanges (l1 ++ l2).
Proof.
  intros H1 H2. induction H1 as [|q a src rest Hsrc _ IH]; simpl.
  - exact H2.
  - constructor; assumption.
Qed.

Lemma conversation_opening (session : option (list Message.t)) :
  session_ok session -> conversation (opening session).
Proof.
  destruct session as [messages|]; simpl; [tauto|].
  intros _. exists welcome_message, []. repeat split; [left|constructor]; auto.
Qed.

Lemma conversation_answered (messages : list Message.t) (q : str)
    (r : AgentResponse) :
  conversation messages -> source r <> [] ->
  conversation (messages ++ [user_message q; assistant_message r]).
Proof.
  intros (first & rest & -> & Hfirst & Hrest) Hsrc.
  exists first, (rest ++ [user_message q; assistant_message r]).
  repeat split; [exact Hfirst|].
  apply exchanges_app; [exact Hrest|].
  apply (exchanges_cons q (source r) (answer r) [] Hsrc). constructor.
Qed.

Lemma conversation_cleared : conversation [cleared_message].
Proof.
  exists cleared_message, []. repeat split; [right|constructor]; auto.
Qed.

Lemma session_ok_settle (input : run_input) (messages : list Message.t)
    (shown : list st.element) :
  conversation messages ->
  session_ok (session_state (settle input (draw_sidebar input messages shown))).
Proof.
  intros H. unfold settle, draw_sidebar.
  destruct (clear_clicked input); simpl; [apply conversation_cleared | exact H].
Qed.

Lemma user_action_keeps_session_ok
    (World : Type) (service : World -> request -> reply * World)
    (w w' : World) (input : run_input) (session : option (list Message.t))
    (p : page) (calls : list request) :
  session_ok session ->
  run service (user_action input session) w = (Returns p, w', calls) ->
  session_ok (session_state p).
Proof.
  intros Hok. pose proof (conversation_opening session Hok) as Hopen.
  rewrite run_user_action.
  destruct (OPENAI_API_KEY input) as [key|];
    [|intros [= <- _ _]; exact Hok].
  destruct (usable_key key); [|intros [= <- _ _]; exact Hok].
  destruct (chat_input input) as [q|];
    [|intros [= <- _ _]; apply session_ok_settle, Hopen].
  destruct (truthy q); [|intros [= <- _ _]; apply session_ok_settle, Hopen].
  destruct (whitespace_only q); [intros [= <- _ _]; exact Hopen|].
  destruct (run_get_agent_response World service q key w)
    as (r & w1 & calls1 & Hrun & Hsrc & _).
  rewrite Hrun. intros [= <- _ _]. unfold answered_page.
  apply session_ok_settle, conversation_answered; assumption.
Qed.

(** X5.  The history keeps its shape through any series of user
    actions.  Starting from a new session, or from a history of that
    shape, the session state is always either absent or a conversation:
    the greeting (or the message the clear button leaves) followed by
    exchanges, each a user message without source and then an assistant
    message with a non-empty source. *)
Theorem history_stays_a_conversation
    (World : Type) (service : World -> request -> reply * World)
    (inputs : list run_input) (session : option (list Message.t))
    (w : World) :
  session_ok session ->
  session_ok (session_after service inputs session w).
Proof.
  revert session w.
  induction inputs as [|input inputs IH]; intros session w Hok; simpl;
    [exact Hok|].
  destruct (run service (user_action input session) w)
    as [[[p|e] w'] calls] eqn:Hrun; [|exact Hok].
  apply IH. eapply user_action_keeps_session_ok; eassumption.
Qed.

Lemma history_stays_a_conversation_witness :
  session_ok
    (session_after sunny_service
       [asks (py "What does EVA do?"); clears;
        asks (py "What's the weather today?")] None 0%nat).
Proof.
  apply (history_stays_a_conversation nat sunny_service
           [asks (py "What does EVA do?"); clears;
            asks (py "What's the weather today?")] None 0%nat).
  exact I.
Defined.

(** The history that series of actions leaves. *)
Example session_after_three_actions :
  session_after sunny_service
    [asks (py "What does EVA do?"); clears;
     asks (py "What's the weather today?")] None 0%nat =
  Some [ cleared_message;
         user_message (py "What's the weather today?");
         {| Message.role := py "assistant";
            Message.content := Some (py "I cannot check the weather.");
            Message.source := Some (py "OpenAI") |} ].
Proof. vm_compute. reflexivity. Qed.





Lemma sidebar_not_replayed (messages : list Message.t) :
  ~ In sidebar_block (replay messages).
Proof.
  unfold replay, page_head. intros H. apply in_app_or in H.
  destruct H as [H | H].
  - simpl in H. destruct H as [H | [H | [H | []]]]; discriminate.
  - apply in_app_or in H. destruct H as [H | [H | []]]; [|discriminate].
    apply in_map_iff in H. destruct H as (m & Hm & _). discriminate.
Qed.

(** X8.  A submission made of whitespace only is refused on the page
    itself: the run draws the warning and returns.  Nothing is added to
    the history, [get_agent_response] is not called and no request is
    sent, and the sidebar, with its clear button, is not drawn at all in
    that run, so that a click on the button is not acted upon. *)
Theorem blank_submission_is_refused
    (World : Type) (service : World -> request -> reply * World)
    (w : World) (input : run_input) (session : option (list Message.t))
    (key q : str) :
  OPENAI_API_KEY input = Some key -> usable_key key = true ->
  chat_input input = Some q -> q <> [] -> whitespace_only q = true ->
  exists p,
    run service (user_action input session) w = (Returns p, w, []) /\
    session_state p = Some (opening session) /\
    ended p = returned /\
    In (st.warning (py "Please enter a valid question.")) (drawn p) /\
    ~ In sidebar_block (drawn p).
Proof.
  intros Hkey Husable Hq Hne Hws.
  rewrite run_user_action, Hkey, Husable, Hq, Hws.
  destruct q as [|c q]; [contradiction|]. simpl.
  exists (refused_page session). repeat split.
  - unfold refused_page. cbn [drawn]. apply in_or_app. right. left.
    reflexivity.
  - unfold refused_page. cbn [drawn]. intros H. apply in_app_or in H.
    destruct H as [H | [H | []]]; [|discriminate].
    exact (sidebar_not_replayed _ H).
Qed.

Lemma blank_submission_is_refused_witness :
  exists p,
    run sunny_service
      (user_action {| OPENAI_API_KEY := Some (py "sk-test");
                      chat_input := Some [32; 9; 32]%N;
                      clear_clicked := true |} None) 0%nat
      = (Returns p, 0%nat, []) /\
    session_state p = Some (opening None) /\
    ended p = returned /\
    In (st.warning (py "Please enter a valid question.")) (drawn p) /\
    ~ In sidebar_block (drawn p).
Proof.
  apply (blank_submission_is_refused nat sunny_service 0%nat
           {| OPENAI_API_KEY := Some (py "sk-test");
              chat_input := Some [32; 9; 32]%N;
              clear_clicked := true |} None (py "sk-test") [32; 9; 32]%N);
    try reflexivity.
  discriminate.
Defined.

(** X9.  The key reaches nothing but the request.  Two user actions
    that differ only in their (usable) key end on the same page, with
    the same history and the same elements drawn, provided the service
    replies alike to their requests: the key is neither stored in the
    session state nor drawn. *)
Theorem key_reaches_only_the_request
    (World : Type) (service : World -> request -> reply * World)
    (w : World) (input1 input2 : run_input)
    (session : option (list Message.t)) (key1 key2 : str) :
  OPENAI_API_KEY input1 = Some key1 -> usable_key key1 = true ->
  OPENAI_API_KEY input2 = Some key2 -> usable_key key2 = true ->
  chat_input input1 = chat_input input2 ->
  clear_clicked input1 = clear_clicked input2 ->
  (forall q, fst (service w (fallback_request q key1))
             = fst (service w (fallback_request q key2))) ->
  fst (fst (run service (user_action input1 session) w)) =
  fst (fst (run service (user_action input2 session) w)).
Proof.
  intros Hk1 Hu1 Hk2 Hu2 Hq Hclear Hreply.
  rewrite !run_user_action, Hk1, Hu1, Hk2, Hu2, <- Hq.
  assert (Hside : forall messages shown,
             settle input1 (draw_sidebar input1 messages shown) =
             settle input2 (draw_sidebar input2 messages shown)).
  { intros. unfold settle, draw_sidebar. rewrite Hclear. reflexivity. }
  destruct (chat_input input1) as [q|]; [|simpl; f_equal; apply Hside].
  destruct (truthy q); [|simpl; f_equal; apply Hside].
  destruct (whitespace_only q); [reflexivity|].
  destruct (find_best_match q) as [[a s]|] eqn:E.
  - rewrite !(run_accepted World service q _ a s w E). simpl.
    f_equal. apply Hside.
  - rewrite !(run_rejected World service q _ w E).
    specialize (Hreply q).
    destruct (service w (fallback_request q key1)) as [r1 v1].
    destruct (service w (fallback_request q key2)) as [r2 v2].
    simpl in Hreply. subst r2. simpl. f_equal. apply Hside.
Qed.

Lemma key_reaches_only_the_request_witness :
  fst (fst (run sunny_service
              (user_action (asks (py "What's the weather today?")) None)
              0%nat)) =
  fst (fst (run sunny_service
              (user_action {| OPENAI_API_KEY := Some (py "sk-other");
                              chat_input := Some (py "What's the weather today?");
                              clear_clicked := false |} None)
              0%nat)).
Proof.
  apply (key_reaches_only_the_request nat sunny_service 0%nat
           (asks (py "What's the weather today?"))
           {| OPENAI_API_KEY := Some (py "sk-other");
              chat_input := Some (py "What's the weather today?");
              clear_clicked := false |} None (py "sk-test") (py "sk-other"));
    try reflexivity.
Defined.

(** X10.  When the service answers, [get_openai_response] returns the
    content of the first choice as it is and ignores any further choice;
    it has sent exactly one request.  [get_agent_response] passes that
    text on as the answer of a rejected query, under the source
    ["OpenAI"]. *)
Theorem first_choice_is_returned
    (World : Type) (service : World -> request -> reply * World)
    (w w1 : World) (q key : str) (content : option str)
    (others : list (option str)) :
  service w (fallback_request q key)
    = (Completed {| choices := content :: others |}, w1) ->
  run service (get_openai_response q key) w =
    (Returns content, w1, [fallback_request q key]) /\
  (find_best_match q = None ->
   run service (get_agent_response q key) w =
     (Returns {| answer := content; source := py "OpenAI" |}, w1,
      [fallback_request q key])).
Proof.
  intros Hreply. split.
  - rewrite run_get_openai_response, Hreply. reflexivity.
  - intros Hnone. rewrite (run_rejected World service q key w Hnone), Hreply.
    reflexivity.
Qed.

Lemma first_choice_is_returned_witness :
  run sunny_service
    (get_openai_response (py "What's the weather today?") (py "sk-test"))
    0%nat =
    (Returns (Some (py "I cannot check the weather.")), 1%nat,
     [fallback_request (py "What's the weather today?") (py "sk-test")]) /\
  (find_best_match (py "What's the weather today?") = None ->
   run sunny_service
     (get_agent_response (py "What's the weather today?") (py "sk-test"))
     0%nat =
     (Returns {| answer := Some (py "I cannot check the weather.");
                 source := py "OpenAI" |}, 1%nat,
      [fallback_request (py "What's the weather today?") (py "sk-test")])).
Proof.
  apply (first_choice_is_returned nat sunny_service 0%nat 1%nat
           (py "What's the weather today?") (py "sk-test")
           (Some (py "I cannot check the weather.")) []).
  reflexivity.
Defined.

(** X11.  The percentage shown for a predefined answer is a whole number
    between 70 and 100: when the matcher accepts with score [s], the
    source reads ["predefined (match: N%)"] with [N] the score rounded to
    the nearest integer, and [70 <= N <= 100]. *)
Theorem displayed_percentage_bounds (q a : str) (s : Q) :
  find_best_match q = Some (a, s) ->
  (70 <= round_half_even s <= 100)%Z /\
  forall key,
    get_agent_response q key =
    Ret {| answer := Some a;
           source := py "predefined (match: "
                     ++ digits (round_half_even s) ++ py "%)" |}.
Proof.
  intros H. pose proof (find_best_match_Some q a s H)
    as (_ & Hthr & i & qa & (_ & Hs & _) & _).
  assert (H100 : s <= 100).
  { rewrite Hs. apply token_set_ratio_range. }
  split.
  - apply round_half_even_bounds; [exact Hthr | exact H100].
  - intros key. unfold get_agent_response. rewrite H.
    unfold predefined_source. rewrite format_0f_nonneg; [reflexivity|].
    eapply Qle_trans; [|exact Hthr]. discriminate.
Qed.

Lemma displayed_percentage_bounds_witness :
  (70 <= round_half_even (2600 # 30) <= 100)%Z /\
  forall key,
    get_agent_response (py "What does EVA do?") key =
    Ret {| answer := Some (QA.answer qa_EVA);
           source := py "predefined (match: "
                     ++ digits (round_half_even (2600 # 30)) ++ py "%)" |}.
Proof.
  apply (displayed_percentage_bounds (py "What does EVA do?")).
  vm_compute. reflexivity.
Defined.

Lemma split_on_nil (space : char -> bool) (s cur : str) :
  split_on space cur s = [] -> cur = [] /\ forallb space s = true.
Proof.
  revert cur. induction s as [|c s IH]; intros cur; simpl.
  - destruct cur; [auto | discriminate].
  - destruct (space c).
    + destruct cur; [|discriminate]. intros H.
      split; [reflexivity | apply (IH [] H)].
    + intros H. destruct (IH _ H) as [Hcur _]. discriminate.
Qed.

Lemma whitespace_only_split (s : str) :
  whitespace_only s = true <-> split s = [].
Proof.
  split; [apply split_on_whitespace|].
  intros H. apply (split_on_nil isspace s [] H).
Qed.

Lemma split_on_ext (f g : char -> bool) (s cur : str) :
  (forall c, In c s -> f c = g c) ->
  split_on f cur s = split_on g cur s.
Proof.
  revert cur. induction s as [|c s IH]; intros cur H; simpl; [reflexivity|].
  rewrite (H c (or_introl eq_refl)).
  assert (Hs : forall c', In c' s -> f c' = g c')
    by (intros c' Hc'; apply H; right; exact Hc').
  destruct (g c); [destruct cur|]; rewrite ?(IH _ Hs); reflexivity.
Qed.

Lemma narrow_space_isspace (c : char) :
  fuzz.is_space true c = true -> isspace c = true.
Proof.
  unfold fuzz.is_space, isspace. intros H.
  apply orb_true_iff in H. destruct H as [H | H]; rewrite H; simpl;
    [reflexivity | rewrite orb_true_r; reflexivity].
Qed.

(** On a query without U+0085 and U+00A0 the scorer finds the words
    [str.split()] finds. *)
Lemma scorer_split_plain (q : str) :
  no_nbsp q = true -> fuzz.split q = split q.
Proof.
  intros Hq. unfold fuzz.split, split. apply split_on_ext.
  intros c Hc. destruct (fuzz.one_byte q) eqn:Hb; [|reflexivity].
  unfold fuzz.one_byte, no_nbsp in *. rewrite forallb_forall in Hb, Hq.
  specialize (Hb c Hc). specialize (Hq c Hc).
  destruct (fuzz.is_space true c) eqn:Hn.
  - symmetry. apply narrow_space_isspace, Hn.
  - destruct (isspace c) eqn:Hs; [|reflexivity].
    rewrite (python_space_narrow c Hs Hb Hn) in Hq. discriminate.
Qed.

Lemma extractOne_loop_ext (scorer : str -> str -> Q) (q1 q2 : str)
    (choices : list str) (key : nat) (cutoff : Q)
    (result : option (str * Q * nat)) :
  (forall c, scorer q1 c = scorer q2 c) ->
  process.extractOne_loop scorer q1 choices key cutoff result =
  process.extractOne_loop scorer q2 choices key cutoff result.
Proof.
  intros Hext. revert key cutoff result.
  induction choices as [|c choices IH]; intros key cutoff result; simpl;
    [reflexivity|].
  unfold process.call_scorer. rewrite Hext.
  destruct (Qeq_bool _ 100); [reflexivity | apply IH].
Qed.

(** X12.  The matcher looks at the words of the question only.  Two
    queries without U+0085 and U+00A0 that [str.split()] splits into the
    same words, whatever the whitespace around and between them, get the
    same result from [find_best_match]: the same answer with the same
    score, or [None] for both.  (The scorer does not take U+0085 and
    U+00A0 for separators in a string of one-byte characters, as the
    example after the theorem shows.) *)
Theorem only_the_words_matter (q1 q2 : str) :
  no_nbsp q1 = true -> no_nbsp q2 = true ->
  split q1 = split q2 ->
  find_best_match q1 = find_best_match q2.
Proof.
  intros Hp1 Hp2 Hsplit. unfold find_best_match, best_match.
  destruct (is_blank q1) eqn:B1.
  - apply is_blank_iff, whitespace_only_split in B1.
    rewrite Hsplit in B1. apply whitespace_only_split, is_blank_iff in B1.
    rewrite B1. reflexivity.
  - destruct (is_blank q2) eqn:B2.
    + apply is_blank_iff, whitespace_only_split in B2.
      rewrite <- Hsplit in B2. apply whitespace_only_split, is_blank_iff in B2.
      congruence.
    + unfold process.extractOne.
      rewrite (extractOne_loop_ext fuzz.token_set_ratio q1 q2); [reflexivity|].
      intros c. unfold fuzz.token_set_ratio.
      rewrite (scorer_split_plain q1 Hp1), (scorer_split_plain q2 Hp2), Hsplit.
      unfold is_blank in B1, B2.
      apply orb_false_elim in B1. apply orb_false_elim in B2.
      destruct B1 as [B1 _], B2 as [B2 _].
      apply negb_false_iff in B1. apply negb_false_iff in B2.
      rewrite B1, B2. reflexivity.
Qed.

Lemma only_the_words_matter_witness :
  find_best_match ([32; 9]%N ++ py "What  does EVA do?" ++ [10]%N) =
  find_best_match (py "What does EVA do?").
Proof.
  apply (only_the_words_matter
           ([32; 9]%N ++ py "What  does EVA do?" ++ [10]%N)
           (py "What does EVA do?")); vm_compute; reflexivity.
Defined.

(** A no-break space between two words of an otherwise ASCII query is a
    letter for the scorer: "a<U+00A0>b" scores 50 against "a", and
    "What<U+00A0>does EVA do?" is not matched, while "What does EVA do?"
    is. *)
Example no_break_space_is_a_letter :
  fuzz.token_set_ratio (py "a" ++ [160%N] ++ py "b") (py "a") == 50 /\
  find_best_match (py "What" ++ [160%N] ++ py "does EVA do?") = None /\
  find_best_match (py "What does EVA do?") = Some (QA.answer qa_EVA, 2600 # 30).
Proof. repeat split; vm_compute; reflexivity. Qed.
